(** * LoRa surveillance API: the read paths of [backend/main.py]

    A shallow embedding of the aggregation layer of the service: the log
    reader [_load_logs], the image scanner [_load_images] and the three
    endpoints [get_status], [get_logs] and [get_images], together with the
    parts of the Python library they lean on ([dict.get], [sorted] and
    [list.sort], [Path.suffix], [str.lower], [datetime.fromtimestamp] and
    [datetime.isoformat]).

    Conventions.
    - A Python [str] is a [string]; [<] on [str] is [String.ltb], the
      lexicographic order on character codes.
    - A call that may raise has a [result] type: [Return v] or [Raise e].
    - The persisted state a request observes is a value of type [world];
      reading it never changes it. *)

From Stdlib Require Import ZArith List String Ascii Bool Lia.
From Stdlib Require Import Permutation Sorted RelationClasses.
Import ListNotations.

Local Open Scope string_scope.
Local Open Scope Z_scope.

(** ** Exceptions and results *)

(** The exceptions that can leave the code of [main.py].  [HTTPException] is
    the only one the program raises itself; the others come out of the
    library calls it makes and are not caught anywhere. *)
Inductive exn : Type :=
| HTTPException (status_code : Z) (detail : string)
| TypeError        (* [<] between values that do not support it *)
| AttributeError   (* [e.get] on a value that is not a dict *)
| OSError          (* [read_text], [stat] *)
| ValueError       (* [read_text] on undecodable bytes, [fromtimestamp] out of range *)
| RecursionError   (* [json.loads] on a document nested too deep *)
| OverflowError.   (* [fromtimestamp] on a time that does not fit a [time_t] *)

Inductive result (A : Type) : Type :=
| Return (v : A)
| Raise (e : exn).

Arguments Return {A} v.
Arguments Raise {A} e.

Definition bind {A B : Type} (m : result A) (k : A -> result B) : result B :=
  match m with
  | Return v => k v
  | Raise e => Raise e
  end.

Notation "x <- m ;; k" := (bind m (fun x => k))
  (at level 61, m at next level, right associativity).

Definition returns {A : Type} (m : result A) : Prop := exists v, m = Return v.

(** ** Values produced by [json.loads] *)

(** Numbers are Python [int]s.  Literals with a fraction or an exponent
    (Python [float]s) are left out: the program never looks inside a number,
    and no property below depends on one. *)
#[local] Set Warnings "-register-all".

Inductive json : Type :=
| JNull
| JBool (b : bool)
| JInt (n : Z)
| JStr (s : string)
| JArr (xs : list json)
| JObj (items : list (string * json)).

(** A dict is the list of its items in insertion order; keys are distinct.
    [lookup] finds the item of a key. *)
Fixpoint lookup {V : Type} (k : string) (items : list (string * V)) : option V :=
  match items with
  | [] => None
  | (k', v) :: rest => if String.eqb k k' then Some v else lookup k rest
  end.

(** [bool] is a subclass of [int]: [True] is 1 and [False] is 0. *)
Definition as_number (v : json) : option Z :=
  match v with
  | JBool b => Some (if b then 1 else 0)
  | JInt n => Some n
  | _ => None
  end.

(** [a == b].  Never raises on these values. *)
Fixpoint py_eq (a b : json) {struct a} : bool :=
  match a, b with
  | JNull, JNull => true
  | JStr s, JStr t => String.eqb s t
  | JArr xs, JArr ys =>
      (fix all2 (xs ys : list json) {struct xs} : bool :=
         match xs, ys with
         | [], [] => true
         | x :: xs', y :: ys' => py_eq x y && all2 xs' ys'
         | _, _ => false
         end) xs ys
  | JObj kvs, JObj kws =>
      Nat.eqb (List.length kvs) (List.length kws) &&
      (fix all (kvs : list (string * json)) : bool :=
         match kvs with
         | [] => true
         | (k, v) :: rest =>
             match lookup k kws with
             | Some w => py_eq v w
             | None => false
             end && all rest
         end) kvs
  | _, _ =>
      match as_number a, as_number b with
      | Some m, Some n => Z.eqb m n
      | _, _ => false
      end
  end.

(** [a < b].  Defined between two strings, between two numbers and between
    two lists (at the first place where they differ); every other pair
    raises [TypeError], [None < None] and [{} < {}] included. *)
Fixpoint py_lt (a b : json) {struct a} : result bool :=
  match a, b with
  | JStr s, JStr t => Return (String.ltb s t)
  | JArr xs, JArr ys =>
      (fix list_lt (xs ys : list json) {struct xs} : result bool :=
         match xs, ys with
         | [], [] => Return false
         | [], _ :: _ => Return true
         | _ :: _, [] => Return false
         | x :: xs', y :: ys' => if py_eq x y then list_lt xs' ys' else py_lt x y
         end) xs ys
  | _, _ =>
      match as_number a, as_number b with
      | Some m, Some n => Return (Z.ltb m n)
      | _, _ => Raise TypeError
      end
  end.

(** [e.get(k, default)]: only a dict has the method. *)
Definition dict_get (e : json) (k : string) (default : json) : result json :=
  match e with
  | JObj items =>
      Return (match lookup k items with
              | Some v => v
              | None => default
              end)
  | _ => Raise AttributeError
  end.

(** ** [sorted] and [list.sort] *)

(** [list.sort(key=..., reverse=...)] first calls [key] on every element, in
    order, then sorts on the keys with [<] alone, keeping elements with
    equal keys in their original order.  With [reverse=True] the list is
    reversed before and after the ascending sort, which keeps that order of
    equal keys as well.

    The ascending sort is written as an insertion sort from the right.  On
    keys that [<] orders without raising this is the list every stable sort
    returns; which pairs get compared is particular to this scheme. *)
Section ListSort.
Context {A : Type}.
Variable key : A -> result json.

Fixpoint with_keys (l : list A) : result (list (json * A)) :=
  match l with
  | [] => Return []
  | x :: l' =>
      k <- key x ;;
      r <- with_keys l' ;;
      Return ((k, x) :: r)
  end.

Fixpoint insert_lt (x : json * A) (l : list (json * A))
  : result (list (json * A)) :=
  match l with
  | [] => Return [x]
  | y :: l' =>
      b <- py_lt (fst y) (fst x) ;;
      if b then (r <- insert_lt x l' ;; Return (y :: r))
      else Return (x :: y :: l')
  end.

Fixpoint sort_lt (l : list (json * A)) : result (list (json * A)) :=
  match l with
  | [] => Return []
  | x :: l' => s <- sort_lt l' ;; insert_lt x s
  end.

Definition list_sort (reverse : bool) (l : list A) : result (list A) :=
  kl <- with_keys l ;;
  s <- sort_lt (if reverse then rev kl else kl) ;;
  Return (map snd (if reverse then rev s else s)).
End ListSort.

(** [sorted(iterable, key=..., reverse=...)] copies the iterable into a new
    list and sorts that. *)
Definition sorted {A : Type} (l : list A) (key : A -> result json)
  (reverse : bool) : result (list A) :=
  list_sort key reverse l.

(** ** The log document and [_load_logs] *)

(** What [LOG_PATH] holds when a request looks at it.  For a file that
    exists, [read_text] gives its text and [json.loads] either gives the
    parsed value or raises [JSONDecodeError]; [ParseError exc] carries
    [str(exc)], the parser's diagnostic.  [Unreadable e] is a file on which
    one of the two calls raises another exception [e]: an [OSError], a
    [ValueError] on bytes that are not UTF-8 or on an integer literal that
    is too long, a [RecursionError] on text nested too deep. *)
Inductive document : Type :=
| Unreadable (e : exn)
| ParseError (exc : string)
| Parsed (raw : json).

(** [None] when [LOG_PATH.exists()] is false. *)
Definition log_path : Type := option document.

Definition corrupt_detail (exc : string) : string := "Corrupt logs.json: " ++ exc.
Definition not_array_detail : string := "logs.json should contain a JSON array".

Definition isinstance_list (v : json) : bool :=
  match v with
  | JArr _ => true
  | _ => false
  end.

Definition _load_logs (LOG_PATH : log_path) : result (list json) :=
  match LOG_PATH with
  | None => Return []
  | Some doc =>
      raw <- match doc with
             | Unreadable e => Raise e
             | ParseError exc => Raise (HTTPException 500 (corrupt_detail exc))
             | Parsed raw => Return raw
             end ;;
      match raw with
      | JArr events => Return events
      | _ => Raise (HTTPException 500 not_array_detail)
      end
  end.

(** ** [get_logs] *)

Record logs_body : Type := { events : list json; events_total : nat }.

(** [lambda e: e.get("timestamp", "")] *)
Definition timestamp_key (e : json) : result json :=
  dict_get e "timestamp" (JStr "").

Definition get_logs (LOG_PATH : log_path) : result logs_body :=
  events <- _load_logs LOG_PATH ;;
  events_sorted <- sorted events timestamp_key true ;;
  Return {| events := events_sorted; events_total := List.length events_sorted |}.

(** ** File names: [Path.suffix] and [str.lower] *)

(** [s.rfind(c)]: the last index of [c] in [s], or -1. *)
Fixpoint rfind (c : ascii) (s : string) : Z :=
  match s with
  | EmptyString => -1
  | String a s' =>
      let i := rfind c s' in
      if 0 <=? i then i + 1 else if Ascii.eqb a c then 0 else -1
  end.

Definition len (s : string) : Z := Z.of_nat (String.length s).

(** [s[i:]] for [0 <= i]. *)
Definition slice_from (i : Z) (s : string) : string :=
  substring (Z.to_nat i) (String.length s - Z.to_nat i) s.

(** [PurePath.suffix] (pathlib of Python 3.12 and before): the part of the
    name from its last dot on, unless that dot is the first or the last
    character. *)
Definition suffix (name : string) : string :=
  let i := rfind "."%char name in
  if (0 <? i) && (i <? len name - 1) then slice_from i name else "".

(** [str.lower] on the letters A to Z.  No other character lowers to one of
    the letters of the five suffixes below, so membership of the lowered
    suffix in that set is decided by these alone. *)
Definition lower_char (c : ascii) : ascii :=
  let n := nat_of_ascii c in
  if (Nat.leb 65 n && Nat.leb n 90)%bool then ascii_of_nat (n + 32) else c.

Fixpoint lower (s : string) : string :=
  match s with
  | EmptyString => EmptyString
  | String c s' => String (lower_char c) (lower s')
  end.

Definition IMAGE_SUFFIXES : list string :=
  [".png"; ".jpg"; ".jpeg"; ".gif"; ".bmp"].

Definition mem (s : string) (l : list string) : bool := existsb (String.eqb s) l.

(** ** [datetime] *)

(** An aware [datetime]; [utcoffset] is the offset of its [tzinfo] in
    seconds, 0 for [timezone.utc]. *)
Record datetime : Type := {
  year : Z; month : Z; day : Z;
  hour : Z; minute : Z; second : Z; microsecond : Z;
  utcoffset : Z
}.

(** The calendar of the [datetime] module: [_is_leap], [_days_before_year],
    [_days_before_month] and [_ymd2ord], the number of days from 0001-01-01
    (day 1) to the given date. *)
Definition is_leap (y : Z) : bool :=
  (y mod 4 =? 0) && (negb (y mod 100 =? 0) || (y mod 400 =? 0)).

Definition days_before_year (y : Z) : Z :=
  let y := y - 1 in
  y * 365 + y / 4 - y / 100 + y / 400.

Definition days_before_month (y m : Z) : Z :=
  nth (Z.to_nat m) [0; 0; 31; 59; 90; 120; 151; 181; 212; 243; 273; 304; 334] 0
  + (if (2 <? m) && is_leap y then 1 else 0).

Definition ymd2ord (y m d : Z) : Z :=
  days_before_year y + days_before_month y m + d.

(** [gmtime]: the civil date of a day count from 1970-01-01, by whole
    400-year eras of 146097 days and years that begin on 1 March. *)
Definition civil_from_days (z : Z) : Z * Z * Z :=
  let z := z + 719468 in
  let era := z / 146097 in
  let doe := z - era * 146097 in
  let yoe := (doe - doe / 1460 + doe / 36524 - doe / 146096) / 365 in
  let doy := doe - (365 * yoe + yoe / 4 - yoe / 100) in
  let mp := (5 * doy + 2) / 153 in
  let d := doy - (153 * mp + 2) / 5 + 1 in
  let m := if mp <? 10 then mp + 3 else mp - 9 in
  (yoe + era * 400 + (if m <=? 2 then 1 else 0), m, d).

Definition MINYEAR : Z := 1.
Definition MAXYEAR : Z := 9999.

(** The limits of the C types behind [fromtimestamp] (Linux, 64 bits): the
    seconds are a [time_t], and [gmtime] keeps the year minus 1900 in an
    [int]. *)
Definition TIME_T_MIN : Z := -9223372036854775808.
Definition TIME_T_MAX : Z := 9223372036854775807.
Definition INT_MIN : Z := -2147483648.
Definition INT_MAX : Z := 2147483647.

(** What [fromtimestamp] raises on a time [t] whose year [y] is not one of
    1 to 9999: [OverflowError] when the seconds do not fit a [time_t],
    [OSError] when [gmtime] cannot hold the year, [ValueError] when the
    [datetime] refuses it. *)
Definition out_of_range (t y : Z) : exn :=
  if negb ((TIME_T_MIN <=? t / 1000000) && (t / 1000000 <=? TIME_T_MAX))
  then OverflowError
  else if negb ((INT_MIN <=? y - 1900) && (y - 1900 <=? INT_MAX))
  then OSError
  else ValueError.

(** [datetime.fromtimestamp(t, tz=timezone.utc)].  [t] is the time stamp in
    whole microseconds, which is what the call keeps of its argument; a date
    outside the years 1 to 9999 is refused. *)
Definition fromtimestamp_utc (t : Z) : result datetime :=
  let days := t / 86400000000 in
  let rest := t mod 86400000000 in
  let secs := rest / 1000000 in
  let '(y, m, d) := civil_from_days days in
  if (MINYEAR <=? y) && (y <=? MAXYEAR) then
    Return {| year := y; month := m; day := d;
              hour := secs / 3600; minute := secs mod 3600 / 60;
              second := secs mod 60; microsecond := rest mod 1000000;
              utcoffset := 0 |}
  else Raise (out_of_range t y).

(** [datetime.timestamp()], in microseconds: the distance from
    1970-01-01T00:00:00+00:00, whose ordinal is 719163. *)
Definition timestamp_us (dt : datetime) : Z :=
  (((ymd2ord (year dt) (month dt) (day dt) - 719163) * 86400
    + hour dt * 3600 + minute dt * 60 + second dt - utcoffset dt) * 1000000)
  + microsecond dt.

Definition digit (n : Z) : string :=
  String (ascii_of_nat (48 + Z.to_nat (n mod 10))) EmptyString.

(** ["%0wd" % n] for [0 <= n < 10^w]: the [w] decimal digits of [n]. *)
Fixpoint zfill (w : nat) (n : Z) : string :=
  match w with
  | O => ""
  | S w' => zfill w' (n / 10) ++ digit n
  end.

(** [_format_offset]: [+HH:MM], with [:SS] when the offset has seconds. *)
Definition format_offset (off : Z) : string :=
  let sign := if off <? 0 then "-" else "+" in
  let off := Z.abs off in
  let ss := off mod 60 in
  sign ++ zfill 2 (off / 3600) ++ ":" ++ zfill 2 (off mod 3600 / 60)
  ++ (if ss =? 0 then "" else ":" ++ zfill 2 ss).

(** [datetime.isoformat()], with the default separator and time spec. *)
Definition isoformat (dt : datetime) : string :=
  zfill 4 (year dt) ++ "-" ++ zfill 2 (month dt) ++ "-" ++ zfill 2 (day dt)
  ++ "T" ++ zfill 2 (hour dt) ++ ":" ++ zfill 2 (minute dt) ++ ":"
  ++ zfill 2 (second dt)
  ++ (if microsecond dt =? 0 then "" else "." ++ zfill 6 (microsecond dt))
  ++ format_offset (utcoffset dt).

(** ** The image directory and [_load_images] *)

(** [os.stat_result]: the program reads [st_mtime] only, and only through
    [fromtimestamp].  [st_mtime] here is that float of seconds as
    [fromtimestamp] takes it, rounded to whole microseconds, in
    microseconds: two files whose times round to the same microsecond have
    the same [st_mtime].  [st_isdir] tells whether the entry is a
    directory. *)
Record stat_result : Type := { st_isdir : bool; st_mtime : Z }.

(** An entry [iterdir] yields: its base name, and what [stat()] does on it
    (it raises [OSError] on a dangling link, for one). *)
Record dir_entry : Type := { name : string; stat : result stat_result }.

(** [None] when [IMAGES_DIR.exists()] is false, else the entries in the
    order [iterdir] yields them.  A path that exists and that [iterdir]
    cannot list (a regular file, a directory without permission) is not
    among these states. *)
Definition images_dir : Type := option (list dir_entry).

Record image_item : Type := { filename : string; url : string; timestamp : string }.

Definition qualifies (file : dir_entry) : bool :=
  mem (lower (suffix (name file))) IMAGE_SUFFIXES.

(** The item appended for a file that passed the suffix test. *)
Definition make_item (file : dir_entry) : result image_item :=
  st <- stat file ;;
  ts <- fromtimestamp_utc (st_mtime st) ;;
  Return {| filename := name file;
            url := "/static/images/" ++ name file;
            timestamp := isoformat ts |}.

(** The [for] loop, [items] being the list built so far. *)
Fixpoint scan (files : list dir_entry) (items : list image_item)
  : result (list image_item) :=
  match files with
  | [] => Return items
  | file :: files' =>
      if negb (qualifies file) then scan files' items
      else item <- make_item file ;; scan files' (items ++ [item])
  end.

(** [lambda item: item["timestamp"]] *)
Definition item_key (item : image_item) : result json :=
  Return (JStr (timestamp item)).

Definition _load_images (IMAGES_DIR : images_dir) : result (list image_item) :=
  match IMAGES_DIR with
  | None => Return []
  | Some files =>
      items <- scan files [] ;;
      list_sort item_key true items
  end.

(** ** The endpoints *)

Record status_body : Type := { status : string; time : string }.
Record images_body : Type := { images : list image_item; images_total : nat }.

(** [now] is [datetime.now(tz=timezone.utc)], read off the clock. *)
Definition get_status (now : Z) : result status_body :=
  dt <- fromtimestamp_utc now ;;
  Return {| status := "online"; time := isoformat dt |}.

Definition get_images (IMAGES_DIR : images_dir) : result images_body :=
  images <- _load_images IMAGES_DIR ;;
  Return {| images := images; images_total := List.length images |}.

(** ** Requests and responses *)

(** Everything outside the process that a request can observe. *)
Record world : Type := {
  logs_json : log_path;
  images_directory : images_dir;
  clock : Z
}.

Inductive request : Type := GET_status | GET_logs | GET_images.

Inductive content : Type :=
| StatusJSON (b : status_body)
| LogsJSON (b : logs_body)
| ImagesJSON (b : images_body)
| DetailJSON (detail : string)
| InternalServerError.

Record response : Type := { code : Z; body : content }.

(** What the framework sends for the outcome of a handler: 200 with the
    returned value, the status and detail of an [HTTPException], and 500
    for any other exception.  The framework's own step of writing the
    returned value as JSON is not part of this: the 200 is the answer for a
    value it can write, as the empty lists and the status are. *)
Definition respond {A : Type} (to_content : A -> content) (r : result A)
  : response :=
  match r with
  | Return v => {| code := 200; body := to_content v |}
  | Raise (HTTPException c d) => {| code := c; body := DetailJSON d |}
  | Raise _ => {| code := 500; body := InternalServerError |}
  end.

Definition handle (r : request) (w : world) : response :=
  match r with
  | GET_status => respond StatusJSON (get_status (clock w))
  | GET_logs => respond LogsJSON (get_logs (logs_json w))
  | GET_images => respond ImagesJSON (get_images (images_directory w))
  end.

(** * Vocabulary of the properties *)

Definition fmap {A B : Type} (f : A -> B) (m : result A) : result B :=
  x <- m ;; Return (f x).

(** ** Stable descending order on a string key *)

Section StableOrder.
Context {A : Type}.
Variable skey : A -> string.

(** [a] may stand before [b] in a descending list. *)
Definition desc (a b : A) : Prop := String.leb (skey b) (skey a) = true.

Definition has_key (k : string) (x : A) : bool := String.eqb (skey x) k.

(** [out] is [l] sorted on [skey], descending, elements with the same key
    in the order they have in [l]. *)
Definition stable_desc (l out : list A) : Prop :=
  Permutation l out
  /\ StronglySorted desc out
  /\ forall k, filter (has_key k) out = filter (has_key k) l.

(** Insertion into an ascending list, behind the smaller keys only. *)
Fixpoint ins (x : A) (l : list A) : list A :=
  match l with
  | [] => [x]
  | y :: l' => if String.ltb (skey y) (skey x) then y :: ins x l' else x :: y :: l'
  end.

Fixpoint isort (l : list A) : list A :=
  match l with
  | [] => []
  | x :: l' => ins x (isort l')
  end.
End StableOrder.

(** ** Log events *)

(** An event as the data model has it: an object whose [timestamp], when it
    has one, is a string. *)
Definition is_log_event (e : json) : bool :=
  match e with
  | JObj items =>
      match lookup "timestamp" items with
      | None | Some (JStr _) => true
      | Some _ => false
      end
  | _ => false
  end.

Definition has_timestamp (e : json) : bool :=
  match e with
  | JObj items =>
      match lookup "timestamp" items with
      | Some _ => true
      | None => false
      end
  | _ => false
  end.

(** The string an event is ordered by: its [timestamp], the empty string
    when it has none. *)
Definition timestamp_of (e : json) : string :=
  match e with
  | JObj items =>
      match lookup "timestamp" items with
      | Some (JStr s) => s
      | _ => ""
      end
  | _ => ""
  end.

(** [l[i] = x], for [i] within the list. *)
Fixpoint update {A : Type} (i : nat) (x : A) (l : list A) : list A :=
  match l, i with
  | [], _ => []
  | _ :: l', O => x :: l'
  | y :: l', S i' => y :: update i' x l'
  end.

(** The world in which the log file, the image directory and the clock are
    as given. *)
Definition snapshot (doc : log_path) (dir : images_dir) (now : Z) : world :=
  {| logs_json := doc; images_directory := dir; clock := now |}.

(** A regular file or a subdirectory, last modified at [mtime]. *)
Definition entry (name : string) (isdir : bool) (mtime : Z) : dir_entry :=
  {| name := name; stat := Return {| st_isdir := isdir; st_mtime := mtime |} |}.

(** A link whose target is gone: [stat()] raises on it. *)
Definition dangling (name : string) : dir_entry :=
  {| name := name; stat := Raise OSError |}.

Definition is_subdirectory (file : dir_entry) : bool :=
  match stat file with
  | Return st => st_isdir st
  | Raise _ => false
  end.

(** The items of a list of files, when every one of them can be made. *)
Fixpoint mapM {A B : Type} (f : A -> result B) (l : list A) : result (list B) :=
  match l with
  | [] => Return []
  | x :: l' =>
      y <- f x ;;
      r <- mapM f l' ;;
      Return (y :: r)
  end.

(** The first and the last microsecond of the years 1 to 9999. *)
Definition MIN_TIMESTAMP : Z := -62135596800000000.
Definition MAX_TIMESTAMP : Z := 253402300799999999.

(** A file [stat()] succeeds on, with a modification time, as
    [fromtimestamp] takes it, in those years. *)
Definition readable (file : dir_entry) : Prop :=
  exists st, stat file = Return st
             /\ MIN_TIMESTAMP <= st_mtime st <= MAX_TIMESTAMP.

(** ** Sample states *)

(** Two pictures, a text file, a plain subdirectory and a link to nowhere
    whose names carry no image suffix, and a subdirectory whose name does. *)
Definition sample_directory : list dir_entry :=
  [ entry "cam1.jpg" false 1704067200000000;
    entry "note.txt" false 1704153600000000;
    entry "thumbs" true 1704153600000000;
    dangling "latest";
    entry "cam2.PNG" false 1704153600250000;
    entry "album.png" true 1704067200000000 ].

Definition sample_images : list image_item :=
  [ {| filename := "cam2.PNG"; url := "/static/images/cam2.PNG";
       timestamp := "2024-01-02T00:00:00.250000+00:00" |};
    {| filename := "cam1.jpg"; url := "/static/images/cam1.jpg";
       timestamp := "2024-01-01T00:00:00+00:00" |};
    {| filename := "album.png"; url := "/static/images/album.png";
       timestamp := "2024-01-01T00:00:00+00:00" |} ].

Definition sample_events : list json :=
  [ JObj [("timestamp", JStr "2024-01-01T00:00:00Z"); ("msg", JStr "a")];
    JObj [("msg", JStr "c")];
    JObj [("timestamp", JStr "2024-01-02T00:00:00Z"); ("msg", JStr "b")];
    JObj [("msg", JStr "d"); ("timestamp", JStr "")] ].

(** ** Further vocabulary *)

Definition is_object (e : json) : bool :=
  match e with
  | JObj _ => true
  | _ => false
  end.

Definition sample_events_sorted : list json :=
  [ JObj [("timestamp", JStr "2024-01-02T00:00:00Z"); ("msg", JStr "b")];
    JObj [("timestamp", JStr "2024-01-01T00:00:00Z"); ("msg", JStr "a")];
    JObj [("msg", JStr "c")];
    JObj [("msg", JStr "d"); ("timestamp", JStr "")] ].

Definition is_str (v : json) : bool :=
  match v with
  | JStr _ => true
  | _ => false
  end.

(** [<] went through between [a] and [b], one way or the other. *)
Definition compared (a b : json) : Prop :=
  returns (py_lt a b) \/ returns (py_lt b a).

(** Every key of the list has been compared with its neighbour. *)
Fixpoint chain (l : list json) : Prop :=
  match l with
  | a :: (b :: _) as l' => compared a b /\ chain l'
  | _ => True
  end.

(** A directory with a picture and a link with an image suffix whose target
    is gone. *)
Definition broken_directory : list dir_entry :=
  [ entry "cam1.jpg" false 1704067200000000; dangling "cam2.jpg" ].

(** [_days_in_month] of the [datetime] module. *)
Definition days_in_month (y m : Z) : Z :=
  if (m =? 2) && is_leap y then 29
  else nth (Z.to_nat m) [-1; 31; 28; 31; 30; 31; 30; 31; 31; 30; 31; 30; 31] 0.

(** The date [y1-m1-d1] lies before the date [y2-m2-d2]. *)
Definition date_lt (y1 m1 d1 y2 m2 d2 : Z) : Prop :=
  y1 < y2 \/ (y1 = y2 /\ (m1 < m2 \/ (m1 = m2 /\ d1 < d2))).

(** The seconds of the day of a [datetime]. *)
Definition seconds_of_day (dt : datetime) : Z :=
  hour dt * 3600 + minute dt * 60 + second dt.

(** ** Stable descending order on a number key *)

Section StableOrderZ.
Context {A : Type}.
Variable zkey : A -> Z.

Definition desc_z (a b : A) : Prop := zkey b <= zkey a.

Definition stable_desc_z (l out : list A) : Prop :=
  Permutation l out
  /\ StronglySorted desc_z out
  /\ forall n, filter (fun x => zkey x =? n) out
               = filter (fun x => zkey x =? n) l.

Fixpoint ins_z (x : A) (l : list A) : list A :=
  match l with
  | [] => [x]
  | y :: l' => if zkey y <? zkey x then y :: ins_z x l' else x :: y :: l'
  end.

Fixpoint isort_z (l : list A) : list A :=
  match l with
  | [] => []
  | x :: l' => ins_z x (isort_z l')
  end.
End StableOrderZ.

(** An event whose timestamp is an integer, such as a count of seconds. *)
Definition is_int_event (e : json) : bool :=
  match e with
  | JObj items =>
      match lookup "timestamp" items with
      | Some (JInt _) => true
      | _ => false
      end
  | _ => false
  end.

Definition int_timestamp_of (e : json) : Z :=
  match e with
  | JObj items =>
      match lookup "timestamp" items with
      | Some (JInt n) => n
      | _ => 0
      end
  | _ => 0
  end.

Definition epoch_events : list json :=
  [ JObj [("timestamp", JInt 9); ("msg", JStr "a")];
    JObj [("timestamp", JInt 10); ("msg", JStr "b")];
    JObj [("timestamp", JInt 9); ("msg", JStr "c")] ].

Definition epoch_events_sorted : list json :=
  [ JObj [("timestamp", JInt 10); ("msg", JStr "b")];
    JObj [("timestamp", JInt 9); ("msg", JStr "a")];
    JObj [("timestamp", JInt 9); ("msg", JStr "c")] ].

(** Two pictures last modified in the same microsecond. *)
Definition tied_directory : list dir_entry :=
  [ entry "a.png" false 1704067200000000;
    entry "b.png" false 1704067200000000 ].

(** The twelve cases of a month [m] known to lie between 1 and 12. *)
Ltac month_cases m :=
  let Hc := fresh "Hc" in
  assert (Hc : m = 1 \/ m = 2 \/ m = 3 \/ m = 4 \/ m = 5 \/ m = 6 \/ m = 7
               \/ m = 8 \/ m = 9 \/ m = 10 \/ m = 11 \/ m = 12) by lia;
  destruct Hc as [Hc|[Hc|[Hc|[Hc|[Hc|[Hc|[Hc|[Hc|[Hc|[Hc|[Hc|Hc]]]]]]]]]]];
  subst m.

(** * Properties *)

(** ** The order on strings *)

Section StringOrder.

Lemma ascii_compare_lt_trans (a b c : ascii) :
  Ascii.compare a b = Lt -> Ascii.compare b c = Lt -> Ascii.compare a c = Lt.
Proof.
  unfold Ascii.compare. rewrite !N.compare_lt_iff. apply N.lt_trans.
Qed.

Lemma compare_lt_trans (s t u : string) :
  String.compare s t = Lt -> String.compare t u = Lt -> String.compare s u = Lt.
Proof.
  revert t u.
  induction s as [|a s IH]; intros [|b t] [|c u]; simpl; try congruence.
  destruct (Ascii.compare a b) eqn:Hab; try discriminate;
    destruct (Ascii.compare b c) eqn:Hbc; try discriminate; intros Hst Htu.
  - apply Ascii.compare_eq_iff in Hab, Hbc. subst.
    assert (Hcc : Ascii.compare c c = Eq)
      by (unfold Ascii.compare; apply N.compare_refl).
    rewrite Hcc. eauto.
  - apply Ascii.compare_eq_iff in Hab. subst. now rewrite Hbc.
  - apply Ascii.compare_eq_iff in Hbc. subst. now rewrite Hab.
  - now rewrite (ascii_compare_lt_trans _ _ _ Hab Hbc).
Qed.

Lemma compare_refl (s : string) : String.compare s s = Eq.
Proof.
  induction s as [|a s IH]; simpl; trivial.
  assert (Haa : Ascii.compare a a = Eq)
    by (unfold Ascii.compare; apply N.compare_refl).
  now rewrite Haa.
Qed.

Lemma ltb_false_leb (s t : string) :
  String.ltb s t = false <-> String.leb t s = true.
Proof.
  unfold String.ltb, String.leb. rewrite (String.compare_antisym t s).
  destruct (String.compare s t); simpl; split; congruence.
Qed.

Lemma ltb_leb (s t : string) : String.ltb s t = true -> String.leb s t = true.
Proof.
  unfold String.ltb, String.leb. destruct (String.compare s t); congruence.
Qed.

Lemma ltb_irrefl (s : string) : String.ltb s s = false.
Proof. unfold String.ltb. now rewrite compare_refl. Qed.

Lemma leb_refl (s : string) : String.leb s s = true.
Proof. unfold String.leb. now rewrite compare_refl. Qed.

Lemma leb_trans (s t u : string) :
  String.leb s t = true -> String.leb t u = true -> String.leb s u = true.
Proof.
  unfold String.leb.
  destruct (String.compare s t) eqn:Hst; try discriminate;
    destruct (String.compare t u) eqn:Htu; try discriminate; intros _ _.
  - apply String.compare_eq_iff in Hst, Htu. subst. now rewrite compare_refl.
  - apply String.compare_eq_iff in Hst. subst. now rewrite Htu.
  - apply String.compare_eq_iff in Htu. subst. now rewrite Hst.
  - now rewrite (compare_lt_trans _ _ _ Hst Htu).
Qed.

Lemma leb_empty (s : string) : String.leb s "" = true -> s = "".
Proof. destruct s; [trivial | discriminate]. Qed.

Lemma leb_antisym_eq (s t : string) :
  String.leb s t = true -> String.leb t s = true -> s = t.
Proof. apply String.leb_antisym. Qed.

End StringOrder.

(** ** Sorting *)

Section SortFacts.
Context {A : Type}.
Variable skey : A -> string.

#[local] Abbreviation ins := (ins skey).
#[local] Abbreviation isort := (isort skey).
#[local] Abbreviation asc := (fun a b : A => String.leb (skey a) (skey b) = true).

Lemma ins_perm (x : A) (l : list A) : Permutation (x :: l) (ins x l).
Proof.
  induction l as [|y l IH]; simpl; [reflexivity|].
  destruct (String.ltb (skey y) (skey x)); [|reflexivity].
  rewrite perm_swap. now apply perm_skip.
Qed.

Lemma isort_perm (l : list A) : Permutation l (isort l).
Proof.
  induction l as [|x l IH]; simpl; [reflexivity|].
  rewrite <- ins_perm. now apply perm_skip.
Qed.

Lemma ins_sorted (x : A) (l : list A) :
  StronglySorted asc l -> StronglySorted asc (ins x l).
Proof.
  induction 1 as [|y l Hs IH Hy]; simpl.
  - repeat constructor.
  - destruct (String.ltb (skey y) (skey x)) eqn:Hlt.
    + constructor; [exact IH|].
      rewrite <- ins_perm. constructor; [now apply ltb_leb | exact Hy].
    + apply ltb_false_leb in Hlt.
      constructor; [now constructor|].
      constructor; [exact Hlt|].
      eapply Forall_impl; [|exact Hy]. intros z Hz. simpl in *.
      eapply leb_trans; eassumption.
Qed.

Lemma isort_sorted (l : list A) : StronglySorted asc (isort l).
Proof.
  induction l as [|x l IH]; simpl; [constructor | now apply ins_sorted].
Qed.

Lemma ins_filter (k : string) (x : A) (l : list A) :
  filter (has_key skey k) (ins x l) = filter (has_key skey k) (x :: l).
Proof.
  induction l as [|y l IH]; simpl; [reflexivity|].
  destruct (String.ltb (skey y) (skey x)) eqn:Hlt; [|reflexivity].
  simpl in *. rewrite IH. unfold has_key.
  destruct (String.eqb (skey x) k) eqn:Hx; [|reflexivity].
  destruct (String.eqb (skey y) k) eqn:Hy; [|reflexivity].
  apply String.eqb_eq in Hx, Hy. rewrite Hx, Hy, ltb_irrefl in Hlt.
  discriminate.
Qed.

Lemma isort_filter (k : string) (l : list A) :
  filter (has_key skey k) (isort l) = filter (has_key skey k) l.
Proof.
  induction l as [|x l IH]; simpl; [reflexivity|].
  rewrite ins_filter. simpl. now rewrite IH.
Qed.

Lemma StronglySorted_snoc (R : A -> A -> Prop) (l : list A) (x : A) :
  StronglySorted R l -> Forall (fun y => R y x) l -> StronglySorted R (l ++ [x]).
Proof.
  induction 1 as [|y l Hs IH Hy]; simpl; intros Hx.
  - repeat constructor.
  - inversion Hx; subst. constructor; [now apply IH|].
    apply Forall_app. split; [exact Hy | now constructor].
Qed.

Lemma StronglySorted_rev (R : A -> A -> Prop) (l : list A) :
  StronglySorted R l -> StronglySorted (fun a b => R b a) (rev l).
Proof.
  induction 1 as [|y l Hs IH Hy]; simpl; [constructor|].
  apply StronglySorted_snoc; [exact IH|].
  apply Forall_rev. exact Hy.
Qed.

(** Reversing, sorting upwards and reversing again sorts downwards and
    keeps the order of equal keys. *)
Lemma rev_isort_rev_stable (l : list A) :
  stable_desc skey l (rev (isort (rev l))).
Proof.
  repeat split.
  - rewrite <- Permutation_rev, <- isort_perm. apply Permutation_rev.
  - apply (StronglySorted_rev asc). apply isort_sorted.
  - intros k. rewrite filter_rev, isort_filter, filter_rev.
    apply rev_involutive.
Qed.

End SortFacts.

(** ** [list.sort] *)

Lemma bind_Return {A B : Type} (m : result A) (k : A -> result B) (v : B) :
  bind m k = Return v -> exists a, m = Return a /\ k a = Return v.
Proof. destruct m as [a|e]; simpl; [eauto | discriminate]. Qed.

Section ListSortFacts.
Context {A : Type}.
Variable key : A -> result json.

Lemma with_keys_snd (l : list A) (kl : list (json * A)) :
  with_keys key l = Return kl -> map snd kl = l.
Proof.
  revert kl. induction l as [|x l IH]; simpl; intros kl H.
  - now inversion H.
  - apply bind_Return in H as (k & _ & H).
    apply bind_Return in H as (r & Hr & H).
    inversion H; subst. simpl. now rewrite (IH r Hr).
Qed.

Lemma insert_lt_perm (x : json * A) (l r : list (json * A)) :
  insert_lt x l = Return r -> Permutation (x :: l) r.
Proof.
  revert r. induction l as [|y l IH]; simpl; intros r H.
  - now inversion H.
  - apply bind_Return in H as ([|] & _ & H).
    + apply bind_Return in H as (r' & Hr' & H). inversion H; subst.
      rewrite perm_swap. apply perm_skip. now apply IH.
    + now inversion H.
Qed.

Lemma sort_lt_perm (l r : list (json * A)) :
  sort_lt l = Return r -> Permutation l r.
Proof.
  revert r. induction l as [|x l IH]; simpl; intros r H.
  - now inversion H.
  - apply bind_Return in H as (s & Hs & H).
    rewrite <- (insert_lt_perm _ _ _ H). apply perm_skip. now apply IH.
Qed.

(** Whatever the keys, a sort that returns returns a rearrangement. *)
Lemma list_sort_perm (reverse : bool) (l out : list A) :
  list_sort key reverse l = Return out -> Permutation l out.
Proof.
  unfold list_sort. intros H.
  apply bind_Return in H as (kl & Hkl & H).
  apply bind_Return in H as (s & Hs & H).
  inversion H; subst. apply sort_lt_perm in Hs.
  rewrite <- (with_keys_snd _ _ Hkl).
  apply Permutation_map.
  destruct reverse.
  - now rewrite <- Permutation_rev, <- Hs, <- Permutation_rev.
  - exact Hs.
Qed.

(** *** String keys *)

Variable skey : A -> string.

#[local] Abbreviation tag := (fun x : A => (JStr (skey x), x)).

Lemma insert_lt_tag (x : A) (l : list A) :
  insert_lt (tag x) (map tag l) = Return (map tag (ins skey x l)).
Proof.
  induction l as [|y l IH]; simpl; [reflexivity|].
  destruct (String.ltb (skey y) (skey x)); simpl; [|reflexivity].
  now rewrite IH.
Qed.

Lemma sort_lt_tag (l : list A) :
  sort_lt (map tag l) = Return (map tag (isort skey l)).
Proof.
  induction l as [|x l IH]; simpl; [reflexivity|].
  rewrite IH. simpl. apply insert_lt_tag.
Qed.

Lemma with_keys_tag (l : list A) :
  (forall x, In x l -> key x = Return (JStr (skey x))) ->
  with_keys key l = Return (map tag l).
Proof.
  induction l as [|x l IH]; simpl; intros H; [reflexivity|].
  rewrite (H x) by now left. simpl.
  rewrite IH by (intros; apply H; now right). reflexivity.
Qed.

Lemma list_sort_string_keys (l : list A) :
  (forall x, In x l -> key x = Return (JStr (skey x))) ->
  list_sort key true l = Return (rev (isort skey (rev l))).
Proof.
  intros H. unfold list_sort. rewrite (with_keys_tag l H). simpl.
  rewrite <- map_rev, sort_lt_tag. simpl.
  now rewrite <- map_rev, map_map, map_id.
Qed.

(** On string keys [list.sort(reverse=True)] returns, and what it returns
    is the stable descending arrangement. *)
Lemma list_sort_stable_desc (l : list A) :
  (forall x, In x l -> key x = Return (JStr (skey x))) ->
  exists out, list_sort key true l = Return out /\ stable_desc skey l out.
Proof.
  intros H. exists (rev (isort skey (rev l))). split.
  - now apply list_sort_string_keys.
  - apply rev_isort_rev_stable.
Qed.

End ListSortFacts.

(** The sort looks at the elements through their keys only: renaming the
    elements without touching the keys renames the outcome. *)
Section ListSortMap.
Context {A B : Type}.
Variable f : A -> B.
Variable keyA : A -> result json.
Variable keyB : B -> result json.

#[local] Abbreviation lift := (fun p : json * A => (fst p, f (snd p))).

Lemma with_keys_map (l : list A) :
  (forall x, In x l -> keyB (f x) = keyA x) ->
  with_keys keyB (map f l) = fmap (map lift) (with_keys keyA l).
Proof.
  induction l as [|x l IH]; simpl; intros H; [reflexivity|].
  rewrite (H x) by now left.
  rewrite IH by (intros; apply H; now right).
  unfold fmap. destruct (keyA x); simpl; [|reflexivity].
  destruct (with_keys keyA l); reflexivity.
Qed.

Lemma insert_lt_map (x : json * A) (l : list (json * A)) :
  insert_lt (lift x) (map lift l) = fmap (map lift) (insert_lt x l).
Proof.
  induction l as [|y l IH]; simpl; [reflexivity|].
  destruct (py_lt (fst y) (fst x)) as [[|]|e]; simpl; try reflexivity.
  rewrite IH. unfold fmap. destruct (insert_lt x l); reflexivity.
Qed.

Lemma sort_lt_map (l : list (json * A)) :
  sort_lt (map lift l) = fmap (map lift) (sort_lt l).
Proof.
  induction l as [|x l IH]; simpl; [reflexivity|].
  rewrite IH. unfold fmap. destruct (sort_lt l) as [s|e]; simpl; [|reflexivity].
  apply insert_lt_map.
Qed.

Lemma list_sort_map (reverse : bool) (l : list A) :
  (forall x, In x l -> keyB (f x) = keyA x) ->
  list_sort keyB reverse (map f l) = fmap (map f) (list_sort keyA reverse l).
Proof.
  intros H. unfold list_sort. rewrite (with_keys_map l H). unfold fmap.
  destruct (with_keys keyA l) as [kl|e]; simpl; [|reflexivity].
  assert (Hrev : (if reverse then rev (map lift kl) else map lift kl)
                 = map lift (if reverse then rev kl else kl))
    by (destruct reverse; [now rewrite map_rev | reflexivity]).
  rewrite Hrev, sort_lt_map. unfold fmap.
  destruct (sort_lt (if reverse then rev kl else kl)) as [s|e]; simpl;
    [|reflexivity].
  f_equal. destruct reverse; rewrite <- ?map_rev, !map_map; reflexivity.
Qed.

End ListSortMap.

(** ** What the comparisons and the key can raise *)

Lemma json_arr_ind (P : json -> Prop) :
  P JNull -> (forall b, P (JBool b)) -> (forall n, P (JInt n)) ->
  (forall s, P (JStr s)) -> (forall xs, Forall P xs -> P (JArr xs)) ->
  (forall items, P (JObj items)) -> forall v, P v.
Proof.
  intros HN HB HI HS HA HO. fix IH 1.
  intros [ | b | n | s | xs | items];
    [exact HN | apply HB | apply HI | apply HS | | apply HO].
  apply HA. induction xs as [|x xs IHxs]; constructor; [apply IH | exact IHxs].
Qed.

Lemma py_lt_raises (a b : json) (e : exn) : py_lt a b = Raise e -> e = TypeError.
Proof.
  revert b. induction a as [ | c | n | s | xs IH | items] using json_arr_ind;
    intros b; destruct b; simpl; try congruence;
    try (destruct c; simpl; congruence);
    try (match goal with |- context [if ?c then _ else _] => destruct c end;
         simpl; congruence).
  rename xs0 into ys. revert ys.
  induction IH as [|x xs Hx _ IHxs]; intros [|y ys]; try congruence.
  destruct (py_eq x y); [apply IHxs | apply Hx].
Qed.

Lemma timestamp_key_raises (v : json) (e : exn) :
  timestamp_key v = Raise e -> e = AttributeError.
Proof. destruct v; simpl; congruence. Qed.

Section RaiseFacts.
Context {A : Type}.
Variable key : A -> result json.
Variable allowed : exn -> Prop.
Hypothesis key_raises : forall x e, key x = Raise e -> allowed e.
Hypothesis lt_raises : allowed TypeError.

Lemma with_keys_raises (l : list A) (e : exn) :
  with_keys key l = Raise e -> allowed e.
Proof.
  induction l as [|x l IH]; simpl; [discriminate|].
  destruct (key x) eqn:Hk; simpl; [|intros H; inversion H; subst; eauto].
  destruct (with_keys key l); simpl; [discriminate|].
  intros H; inversion H; subst; eauto.
Qed.

Lemma insert_lt_raises (x : json * A) (l : list (json * A)) (e : exn) :
  insert_lt x l = Raise e -> allowed e.
Proof.
  induction l as [|y l IH]; simpl; [discriminate|].
  destruct (py_lt (fst y) (fst x)) as [[|]|e'] eqn:Hlt; simpl.
  - destruct (insert_lt x l); simpl; [discriminate|].
    intros H; inversion H; subst; eauto.
  - discriminate.
  - intros H; inversion H; subst. now rewrite (py_lt_raises _ _ _ Hlt).
Qed.

Lemma sort_lt_raises (l : list (json * A)) (e : exn) :
  sort_lt l = Raise e -> allowed e.
Proof.
  induction l as [|x l IH]; simpl; [discriminate|].
  destruct (sort_lt l); simpl; [apply insert_lt_raises|].
  intros H; inversion H; subst; eauto.
Qed.

Lemma list_sort_raises (reverse : bool) (l : list A) (e : exn) :
  list_sort key reverse l = Raise e -> allowed e.
Proof.
  unfold list_sort. destruct (with_keys key l) eqn:Hk; simpl.
  - destruct (sort_lt _) eqn:Hs; simpl; [discriminate|].
    intros H; inversion H; subst. eapply sort_lt_raises; eauto.
  - intros H; inversion H; subst. eapply with_keys_raises; eauto.
Qed.

End RaiseFacts.

(** ** Log events and their key *)

Lemma timestamp_key_log_event (e : json) :
  is_log_event e = true -> timestamp_key e = Return (JStr (timestamp_of e)).
Proof.
  destruct e as [ | | | | | items]; simpl; try discriminate.
  destruct (lookup "timestamp" items) as [[ | | | | | ]|]; simpl;
    congruence.
Qed.

Lemma timestamp_of_missing (e : json) :
  has_timestamp e = false -> timestamp_of e = "".
Proof.
  destruct e as [ | | | | | items]; simpl; trivial.
  destruct (lookup "timestamp" items); [discriminate | trivial].
Qed.

Lemma desc_after_empty {A : Type} (skey : A -> string) (l1 l2 : list A) (x : A) :
  StronglySorted (desc skey) (l1 ++ x :: l2) -> skey x = "" ->
  Forall (fun y => skey y = "") l2.
Proof.
  induction l1 as [|a l1 IH]; simpl; intros Hs Hx.
  - inversion Hs as [|? ? _ Hall]; subst.
    eapply Forall_impl; [|exact Hall]. intros y Hy.
    unfold desc in Hy. rewrite Hx in Hy. now apply leb_empty.
  - inversion Hs; subst. auto.
Qed.

(** ** The log endpoint *)

Lemma get_logs_parsed_array (evs : list json) :
  get_logs (Some (Parsed (JArr evs)))
  = fmap (fun out => {| events := out; events_total := List.length out |})
         (list_sort timestamp_key true evs).
Proof. reflexivity. Qed.

(** C1, as amended.  For every log document that parses as a JSON array of
    log events (objects whose timestamp, when present, is a string),
    [get_logs] returns all the events, with their number as total, sorted
    by timestamp descending under the lexical order of strings, an event
    without a timestamp being ordered as if its timestamp were the empty
    string, hence after every event with a non-empty one, and events with
    equal or missing timestamps keeping the order they have in the array. *)
Theorem get_logs_sorted_desc_stable (evs : list json) :
  forallb is_log_event evs = true ->
  exists out,
    get_logs (Some (Parsed (JArr evs)))
    = Return {| events := out; events_total := List.length evs |}
    /\ stable_desc timestamp_of evs out
    /\ (forall l1 e l2, out = (l1 ++ e :: l2)%list -> has_timestamp e = false ->
        Forall (fun e' => timestamp_of e' = "") l2).
Proof.
  intros Hev. rewrite forallb_forall in Hev.
  destruct (list_sort_stable_desc timestamp_key timestamp_of evs)
    as (out & Hsort & Hstable).
  { intros e He. apply timestamp_key_log_event. now apply Hev. }
  assert (Hget : get_logs (Some (Parsed (JArr evs)))
                 = Return {| events := out; events_total := List.length evs |}).
  { rewrite get_logs_parsed_array, Hsort. simpl.
    destruct Hstable as (Hperm & _). now rewrite (Permutation_length Hperm). }
  exists out. repeat split; try apply Hstable; trivial.
  intros l1 e l2 Hout Hmiss. destruct Hstable as (_ & Hsorted & _).
  rewrite Hout in Hsorted.
  apply (desc_after_empty timestamp_of l1 l2 e Hsorted).
  now apply timestamp_of_missing.
Qed.

Lemma get_logs_sorted_desc_stable_witness :
  forallb is_log_event sample_events = true
  /\ exists out,
       get_logs (Some (Parsed (JArr sample_events)))
       = Return {| events := out; events_total := 4 |}
       /\ stable_desc timestamp_of sample_events out.
Proof.
  split; [reflexivity|].
  destruct (get_logs_sorted_desc_stable sample_events eq_refl)
    as (out & Hget & Hstable & _).
  exists out. split; [exact Hget | exact Hstable].
Defined.

(** C1, as stated, fails: this document parses as a JSON array, one of its
    two events carries a number as timestamp, and [get_logs] returns no
    events at all. *)
Lemma get_logs_array_not_always_sorted :
  ~ exists body,
      get_logs (Some (Parsed (JArr
        [JObj [("timestamp", JInt 1704153600); ("msg", JStr "b")];
         JObj [("timestamp", JStr "2024-01-01T00:00:00Z"); ("msg", JStr "a")]])))
      = Return body.
Proof. intros (body & H). vm_compute in H. discriminate. Qed.

(** C3, as amended.  A log document on which the parser raises
    [JSONDecodeError] makes [_load_logs] raise an [HTTPException] with
    status 500 whose detail ends with the parser's diagnostic; nothing is
    returned, and [get_logs] and the response carry the same failure.  A
    document that fails in another way (bytes that are not UTF-8, an
    integer literal that is too long, text nested too deep, a read error)
    is not caught: the exception leaves [_load_logs] and [get_logs] as it
    is, nothing is returned, and the response is a 500 without a
    diagnostic.  A document that parses as an array is returned whole, and
    [get_logs] raises no [HTTPException] on it. *)
Theorem corrupt_document_is_server_error (exc : string) :
  _load_logs (Some (ParseError exc))
  = Raise (HTTPException 500 ("Corrupt logs.json: " ++ exc))
  /\ get_logs (Some (ParseError exc))
     = Raise (HTTPException 500 ("Corrupt logs.json: " ++ exc))
  /\ (forall dir now,
        handle GET_logs (snapshot (Some (ParseError exc)) dir now)
        = {| code := 500; body := DetailJSON ("Corrupt logs.json: " ++ exc) |})
  /\ (forall e,
        _load_logs (Some (Unreadable e)) = Raise e
        /\ get_logs (Some (Unreadable e)) = Raise e)
  /\ (forall e dir now,
        e = ValueError \/ e = RecursionError \/ e = OSError ->
        handle GET_logs (snapshot (Some (Unreadable e)) dir now)
        = {| code := 500; body := InternalServerError |})
  /\ (forall evs, _load_logs (Some (Parsed (JArr evs))) = Return evs)
  /\ (forall evs c d,
        get_logs (Some (Parsed (JArr evs))) <> Raise (HTTPException c d)).
Proof.
  repeat split; try reflexivity.
  - intros e dir now [-> | [-> | ->]]; reflexivity.
  - intros evs c d. rewrite get_logs_parsed_array. unfold fmap.
    destruct (list_sort timestamp_key true evs) as [out|e] eqn:Hs; simpl;
      [discriminate|].
    intros H. inversion H; subst.
    apply (list_sort_raises timestamp_key
             (fun e => e = TypeError \/ e = AttributeError)) in Hs.
    + destruct Hs; discriminate.
    + intros x e He. right. now apply timestamp_key_raises in He.
    + now left.
Qed.

Lemma corrupt_document_is_server_error_witness :
  (RecursionError = ValueError \/ RecursionError = RecursionError
   \/ RecursionError = OSError)
  /\ handle GET_logs (snapshot (Some (Unreadable RecursionError)) None 0)
     = {| code := 500; body := InternalServerError |}.
Proof.
  assert (H : RecursionError = ValueError \/ RecursionError = RecursionError
              \/ RecursionError = OSError) by (right; left; reflexivity).
  split; [exact H|].
  exact (proj1 (proj2 (proj2 (proj2 (proj2
           (corrupt_document_is_server_error "Expecting value")))))
           RecursionError None 0 H).
Defined.

(** C3, as stated, fails: a document whose text is nested too deep does
    not parse, the parser raises [RecursionError] and not
    [JSONDecodeError], and what leaves [_load_logs] is that exception, with
    no [HTTPException] and no diagnostic; so it is for bytes that are not
    UTF-8. *)
Lemma unparsable_document_without_diagnostic :
  _load_logs (Some (Unreadable RecursionError)) = Raise RecursionError
  /\ _load_logs (Some (Unreadable ValueError)) = Raise ValueError
  /\ (forall c d, _load_logs (Some (Unreadable RecursionError))
                  <> Raise (HTTPException c d))
  /\ handle GET_logs (snapshot (Some (Unreadable RecursionError)) None 0)
     = {| code := 500; body := InternalServerError |}.
Proof. repeat split. discriminate. Qed.

(** C4.  A log document that parses as JSON to anything but an array makes
    [_load_logs] raise an [HTTPException] with status 500 whose detail says
    that an array is expected; [get_logs] and the response carry it, and
    the detail differs from every detail of a corrupt document. *)
Theorem non_array_document_is_server_error (raw : json) :
  isinstance_list raw = false ->
  _load_logs (Some (Parsed raw))
  = Raise (HTTPException 500 "logs.json should contain a JSON array")
  /\ get_logs (Some (Parsed raw))
     = Raise (HTTPException 500 "logs.json should contain a JSON array")
  /\ (forall dir now,
        handle GET_logs (snapshot (Some (Parsed raw)) dir now)
        = {| code := 500;
             body := DetailJSON "logs.json should contain a JSON array" |})
  /\ forall exc, "logs.json should contain a JSON array" <> corrupt_detail exc.
Proof.
  intros Hraw.
  assert (Hload : _load_logs (Some (Parsed raw))
                  = Raise (HTTPException 500 not_array_detail))
    by (destruct raw; simpl in *; congruence).
  repeat split.
  - exact Hload.
  - unfold get_logs. now rewrite Hload.
  - intros dir now. unfold handle, get_logs, snapshot. simpl logs_json.
    now rewrite Hload.
  - intros exc. unfold corrupt_detail. simpl. discriminate.
Qed.

Lemma non_array_document_is_server_error_witness :
  isinstance_list (JObj [("timestamp", JStr "2024-01-01T00:00:00Z")]) = false
  /\ _load_logs (Some (Parsed (JObj [("timestamp", JStr "2024-01-01T00:00:00Z")])))
     = Raise (HTTPException 500 "logs.json should contain a JSON array").
Proof.
  split; [reflexivity|].
  exact (proj1 (non_array_document_is_server_error
                  (JObj [("timestamp", JStr "2024-01-01T00:00:00Z")]) eq_refl)).
Defined.

(** C9.  The sort of [get_logs] does not go through on every array of
    objects: when one of two events has a number as timestamp and the other
    a string, in either order and whatever their other fields, comparing the
    keys raises [TypeError], which is not an [HTTPException]; [get_logs]
    returns nothing and the response is a bare 500. *)
Theorem get_logs_mixed_timestamps_raise (n : Z) (s : string)
  (fields1 fields2 : list (string * json)) :
  let number_event := JObj (("timestamp", JInt n) :: fields1) in
  let string_event := JObj (("timestamp", JStr s) :: fields2) in
  _load_logs (Some (Parsed (JArr [number_event; string_event])))
  = Return [number_event; string_event]
  /\ get_logs (Some (Parsed (JArr [number_event; string_event]))) = Raise TypeError
  /\ get_logs (Some (Parsed (JArr [string_event; number_event]))) = Raise TypeError
  /\ (forall c d, TypeError <> HTTPException c d)
  /\ forall dir now,
       handle GET_logs
         (snapshot (Some (Parsed (JArr [number_event; string_event]))) dir now)
       = {| code := 500; body := InternalServerError |}.
Proof. repeat split; try reflexivity; discriminate. Qed.

(** ** A missing timestamp against an empty one *)

Lemma lookup_app_missing {V : Type} (k : string) (v : V)
  (items : list (string * V)) :
  lookup k items = None -> lookup k (items ++ [(k, v)])%list = Some v.
Proof.
  induction items as [|[k' v'] items IH]; simpl.
  - now rewrite String.eqb_refl.
  - destruct (String.eqb k k'); [discriminate | exact IH].
Qed.

Lemma nth_update_same {A : Type} (i : nat) (x d : A) (l : list A) :
  (i < List.length l)%nat -> nth i (update i x l) d = x.
Proof.
  revert i. induction l as [|y l IH]; intros [|i]; simpl; intros Hi;
    try lia; trivial.
  apply IH. lia.
Qed.

Lemma nth_update_other {A : Type} (i j : nat) (x d : A) (l : list A) :
  i <> j -> nth j (update i x l) d = nth j l d.
Proof.
  revert i j. induction l as [|y l IH]; intros [|i] [|j]; simpl; intros Hij;
    try congruence.
  apply IH. congruence.
Qed.

Lemma length_update {A : Type} (i : nat) (x : A) (l : list A) :
  List.length (update i x l) = List.length l.
Proof.
  revert i. induction l as [|y l IH]; intros [|i]; simpl; auto.
Qed.

Lemma map_nth_seq {A : Type} (d : A) (l : list A) :
  map (fun j => nth j l d) (seq 0 (List.length l)) = l.
Proof.
  induction l as [|x l IH]; simpl; [reflexivity|].
  f_equal. rewrite <- seq_shift, map_map. exact IH.
Qed.

Lemma in_combine_seq {A : Type} (d : A) (l : list A) (j : nat) (x : A) :
  In (j, x) (combine (seq 0 (List.length l)) l) -> nth j l d = x.
Proof.
  assert (H : forall s, In (j, x) (combine (seq s (List.length l)) l) ->
                        (s <= j)%nat /\ nth (j - s) l d = x).
  { induction l as [|y l IH]; simpl; intros s; [tauto|].
    intros [Heq | Hin].
    - inversion Heq; subst. rewrite Nat.sub_diag. split; [lia | reflexivity].
    - apply IH in Hin as (Hle & Hnth). split; [lia|].
      replace (j - s)%nat with (S (j - S s)) by lia. exact Hnth. }
  intros Hin. apply H in Hin as (_ & Hnth). now rewrite Nat.sub_0_r in Hnth.
Qed.

(** C10.  Take any log array and any event of it that is an object without
    a timestamp, and give that event the timestamp [""].  Then [get_logs]
    arranges the two arrays alike: either both calls raise the same
    exception, or both return, and one list of positions reads the output of
    each call off its own input. *)
Theorem empty_timestamp_sorts_as_missing (evs : list json) (i : nat)
  (items : list (string * json)) :
  nth_error evs i = Some (JObj items) ->
  lookup "timestamp" items = None ->
  let evs' := update i (JObj (items ++ [("timestamp", JStr "")])) evs in
  match get_logs (Some (Parsed (JArr evs))),
        get_logs (Some (Parsed (JArr evs'))) with
  | Return b, Return b' =>
      exists order,
        Permutation (seq 0 (List.length evs)) order
        /\ events b = map (fun j => nth j evs JNull) order
        /\ events b' = map (fun j => nth j evs' JNull) order
        /\ events_total b' = events_total b
  | Raise e, Raise e' => e = e'
  | _, _ => False
  end.
Proof.
  intros Hnth Hmiss evs'.
  set (tagged := combine (seq 0 (List.length evs)) evs).
  set (keyT := fun p : nat * json => timestamp_key (snd p)).
  set (pick := fun p : nat * json => nth (fst p) evs' JNull).
  assert (Hi : (i < List.length evs)%nat)
    by (apply nth_error_Some; congruence).
  assert (Hfst : map fst tagged = seq 0 (List.length evs)).
  { unfold tagged. clear. generalize 0%nat.
    induction evs as [|x l IH]; simpl; intros s; [reflexivity|].
    now rewrite IH. }
  assert (Hsnd : map snd tagged = evs).
  { unfold tagged. clear. generalize 0%nat.
    induction evs as [|x l IH]; simpl; intros s; [reflexivity|].
    now rewrite IH. }
  assert (Hpick : map pick tagged = evs').
  { unfold pick. rewrite <- (map_map fst (fun j => nth j evs' JNull)), Hfst.
    rewrite <- (length_update i (JObj (items ++ [("timestamp", JStr "")])) evs).
    apply map_nth_seq. }
  assert (Hkey : forall p, In p tagged -> timestamp_key (pick p) = keyT p).
  { intros [j x] Hin. apply (in_combine_seq JNull) in Hin.
    unfold pick, keyT, evs'. simpl.
    destruct (Nat.eq_dec i j) as [<- | Hij].
    - rewrite nth_update_same by exact Hi.
      rewrite (nth_error_nth _ _ JNull Hnth) in Hin. subst x.
      unfold timestamp_key. simpl.
      now rewrite (lookup_app_missing _ _ _ Hmiss), Hmiss.
    - rewrite nth_update_other by exact Hij. now rewrite Hin. }
  assert (H1 : list_sort timestamp_key true evs
               = fmap (map snd) (list_sort keyT true tagged)).
  { rewrite <- (list_sort_map snd keyT timestamp_key true tagged)
      by reflexivity.
    now rewrite Hsnd. }
  assert (H2 : list_sort timestamp_key true evs'
               = fmap (map pick) (list_sort keyT true tagged)).
  { rewrite <- (list_sort_map pick keyT timestamp_key true tagged Hkey).
    now rewrite Hpick. }
  rewrite !get_logs_parsed_array, H1, H2.
  destruct (list_sort keyT true tagged) as [s|e] eqn:Hs; simpl; [|reflexivity].
  apply list_sort_perm in Hs.
  exists (map fst s). repeat split.
  - rewrite <- Hfst. now apply Permutation_map.
  - rewrite map_map. apply map_ext_in. intros [j x] Hin. simpl.
    symmetry. apply in_combine_seq.
    apply (Permutation_in _ (Permutation_sym Hs)) in Hin. exact Hin.
  - now rewrite map_map.
  - now rewrite !length_map.
Qed.

Lemma empty_timestamp_sorts_as_missing_witness :
  nth_error sample_events 1 = Some (JObj [("msg", JStr "c")])
  /\ lookup "timestamp" [("msg", JStr "c")] = None
  /\ match get_logs (Some (Parsed (JArr sample_events))),
           get_logs (Some (Parsed (JArr
             (update 1 (JObj [("msg", JStr "c"); ("timestamp", JStr "")])
                sample_events)))) with
     | Return b, Return b' =>
         exists order,
           Permutation (seq 0 4) order
           /\ events b = map (fun j => nth j sample_events JNull) order
           /\ events b'
              = map (fun j =>
                       nth j (update 1 (JObj [("msg", JStr "c");
                                              ("timestamp", JStr "")])
                                sample_events) JNull) order
           /\ events_total b' = events_total b
     | Raise e, Raise e' => e = e'
     | _, _ => False
     end.
Proof.
  split; [reflexivity|]. split; [reflexivity|].
  exact (empty_timestamp_sorts_as_missing sample_events 1
           [("msg", JStr "c")] eq_refl eq_refl).
Defined.

(** ** Dates *)

Lemma civil_from_days_ord (z : Z) :
  let '(y, m, d) := civil_from_days z in
  1 <= m <= 12 /\ 1 <= d <= 31 /\ ymd2ord y m d = z + 719163.
Proof.
  unfold civil_from_days, ymd2ord, days_before_year, days_before_month, is_leap.
  set (z' := z + 719468).
  set (era := z' / 146097).
  set (doe := z' - era * 146097).
  set (yoe := (doe - doe / 1460 + doe / 36524 - doe / 146096) / 365).
  set (doy := doe - (365 * yoe + yoe / 4 - yoe / 100)).
  set (mp := (5 * doy + 2) / 153).
  assert (Hdoe : 0 <= doe < 146097)
    by (unfold doe, era; Z.div_mod_to_equations; lia).
  assert (Hyoe : 0 <= yoe < 400) by (unfold yoe; Z.div_mod_to_equations; lia).
  assert (Hdoy : 0 <= doy < 366)
    by (unfold doy, yoe; Z.div_mod_to_equations; lia).
  assert (Hmp : 0 <= mp < 12) by (unfold mp; Z.div_mod_to_equations; lia).
  assert (Hz : z = era * 146097 + doe - 719468) by (unfold doe, z'; lia).
  assert (Hdoe' : doe = doy + 365 * yoe + yoe / 4 - yoe / 100)
    by (unfold doy; lia).
  assert (Hmpd : 153 * mp <= 5 * doy + 2 < 153 * mp + 153)
    by (unfold mp; Z.div_mod_to_equations; lia).
  clearbody mp doy yoe doe era. clear z'. subst z.
  assert (Hcases : mp = 0 \/ mp = 1 \/ mp = 2 \/ mp = 3 \/ mp = 4 \/ mp = 5 \/
                   mp = 6 \/ mp = 7 \/ mp = 8 \/ mp = 9 \/ mp = 10 \/ mp = 11)
    by lia.
  destruct Hcases as [H|[H|[H|[H|[H|[H|[H|[H|[H|[H|[H|H]]]]]]]]]]]; subst mp;
    repeat match goal with
           | |- context [Z.to_nat ?e] =>
               let v := eval vm_compute in (Z.to_nat e) in
               change (Z.to_nat e) with v
           | |- context [?a <? ?b] =>
               let v := eval vm_compute in (a <? b) in change (a <? b) with v
           | |- context [?a <=? ?b] =>
               let v := eval vm_compute in (a <=? b) in change (a <=? b) with v
           end;
    cbn [nth andb];
    repeat match goal with
           | |- context [?a =? ?b] => destruct (Z.eqb_spec a b)
           end;
    cbn [negb orb andb];
    (split; [lia|]); (split; [Z.div_mod_to_equations; lia|]);
    Z.div_mod_to_equations; lia.
Qed.

(** A [datetime] made from a time stamp has its fields in range, is in
    UTC, and stands for that time stamp. *)
Lemma fromtimestamp_utc_fields (t : Z) (dt : datetime) :
  fromtimestamp_utc t = Return dt ->
  (MINYEAR <= year dt <= MAXYEAR /\ 1 <= month dt <= 12 /\ 1 <= day dt <= 31)
  /\ (0 <= hour dt < 24 /\ 0 <= minute dt < 60 /\ 0 <= second dt < 60
      /\ 0 <= microsecond dt < 1000000)
  /\ utcoffset dt = 0
  /\ timestamp_us dt = t.
Proof.
  unfold fromtimestamp_utc, timestamp_us.
  pose proof (civil_from_days_ord (t / 86400000000)) as Hord.
  destruct (civil_from_days (t / 86400000000)) as [[y m] d].
  destruct Hord as (Hm & Hd & Hord).
  destruct ((MINYEAR <=? y) && (y <=? MAXYEAR)) eqn:Hy; [|discriminate].
  intros H. inversion H; subst; clear H. cbn [year month day hour minute second
    microsecond utcoffset].
  apply andb_prop in Hy as (Hy1 & Hy2).
  apply Z.leb_le in Hy1, Hy2.
  rewrite Hord.
  repeat split; try lia; try (Z.div_mod_to_equations; lia).
Qed.

Lemma fromtimestamp_utc_returns (t : Z) :
  MIN_TIMESTAMP <= t <= MAX_TIMESTAMP -> returns (fromtimestamp_utc t).
Proof.
  unfold MIN_TIMESTAMP, MAX_TIMESTAMP, fromtimestamp_utc. intros Ht.
  pose proof (civil_from_days_ord (t / 86400000000)) as Hord.
  destruct (civil_from_days (t / 86400000000)) as [[y m] d].
  destruct Hord as (Hm & Hd & Hord).
  assert (Hy : (MINYEAR <=? y) && (y <=? MAXYEAR) = true).
  { unfold ymd2ord, days_before_year, days_before_month in Hord.
    assert (Htab : 0 <= nth (Z.to_nat m)
                     [0; 0; 31; 59; 90; 120; 151; 181; 212; 243; 273; 304; 334] 0
                   <= 334).
    { assert (Hc : m = 1 \/ m = 2 \/ m = 3 \/ m = 4 \/ m = 5 \/ m = 6 \/ m = 7
                   \/ m = 8 \/ m = 9 \/ m = 10 \/ m = 11 \/ m = 12) by lia.
      destruct Hc as [H|[H|[H|[H|[H|[H|[H|[H|[H|[H|[H|H]]]]]]]]]]]; subst m;
        simpl; lia. }
    destruct ((2 <? m) && is_leap y);
      apply andb_true_intro; unfold MINYEAR, MAXYEAR;
      rewrite !Z.leb_le; Z.div_mod_to_equations; lia. }
  rewrite Hy. eexists. reflexivity.
Qed.

Lemma make_item_readable (file : dir_entry) :
  readable file -> returns (make_item file).
Proof.
  intros (st & Hst & Ht). unfold make_item. rewrite Hst. simpl.
  destruct (fromtimestamp_utc_returns _ Ht) as (dt & Hdt).
  rewrite Hdt. simpl. eexists. reflexivity.
Qed.

Lemma length_append (s t : string) :
  String.length (s ++ t) = (String.length s + String.length t)%nat.
Proof. induction s as [|c s IH]; simpl; [reflexivity | now rewrite IH]. Qed.

Lemma length_zfill (w : nat) (n : Z) : String.length (zfill w n) = w.
Proof.
  revert n. induction w as [|w IH]; intros n; simpl; [reflexivity|].
  rewrite length_append, IH. simpl. lia.
Qed.

Lemma append_assoc (s t u : string) : (s ++ t) ++ u = s ++ t ++ u.
Proof. induction s as [|c s IH]; simpl; [reflexivity | now rewrite IH]. Qed.

(** The text of a UTC [datetime]: date, [T], time, six digits of
    microseconds when there are any, and the offset [+00:00]. *)
Lemma isoformat_utc (dt : datetime) :
  utcoffset dt = 0 ->
  exists text,
    isoformat dt = text ++ "+00:00"
    /\ (String.length text = 19%nat \/ String.length text = 26%nat).
Proof.
  intros Hoff. unfold isoformat. rewrite Hoff.
  change (format_offset 0) with "+00:00".
  exists (zfill 4 (year dt) ++ "-" ++ zfill 2 (month dt) ++ "-"
          ++ zfill 2 (day dt) ++ "T" ++ zfill 2 (hour dt) ++ ":"
          ++ zfill 2 (minute dt) ++ ":" ++ zfill 2 (second dt)
          ++ (if microsecond dt =? 0 then ""
              else "." ++ zfill 6 (microsecond dt))).
  split.
  - rewrite !append_assoc. reflexivity.
  - destruct (microsecond dt =? 0);
      repeat (rewrite length_append || rewrite length_zfill); simpl; lia.
Qed.

(** ** The scan of the image directory *)

Lemma mapM_Forall2 {A B : Type} (f : A -> result B) (l : list A) (r : list B) :
  mapM f l = Return r -> Forall2 (fun x y => f x = Return y) l r.
Proof.
  revert r. induction l as [|x l IH]; simpl; intros r H.
  - inversion H. constructor.
  - apply bind_Return in H as (y & Hy & H).
    apply bind_Return in H as (r' & Hr' & H).
    inversion H; subst. constructor; auto.
Qed.

Lemma mapM_returns {A B : Type} (f : A -> result B) (l : list A) :
  (forall x, In x l -> returns (f x)) -> returns (mapM f l).
Proof.
  induction l as [|x l IH]; simpl; intros H.
  - now exists [].
  - destruct (H x) as (y & Hy); [now left|].
    destruct IH as (r & Hr); [intros; apply H; now right|].
    exists (y :: r). now rewrite Hy, Hr.
Qed.

Lemma mapM_perm {A B : Type} (f : A -> result B) (l l' : list A) :
  Permutation l l' -> forall r, mapM f l = Return r ->
  exists r', mapM f l' = Return r' /\ Permutation r r'.
Proof.
  induction 1 as [|x l l' Hp IH|x y l|l l' l'' _ IH1 _ IH2]; simpl; intros r H.
  - exists r. split; [exact H | reflexivity].
  - apply bind_Return in H as (a & Ha & H).
    apply bind_Return in H as (r0 & Hr0 & H). inversion H; subst.
    destruct (IH _ Hr0) as (r' & Hr' & Hperm).
    exists (a :: r'). rewrite Ha, Hr'. split; [reflexivity | now constructor].
  - apply bind_Return in H as (a & Ha & H).
    apply bind_Return in H as (r0 & H0 & H).
    apply bind_Return in H0 as (b & Hb & H0).
    apply bind_Return in H0 as (r1 & Hr1 & H0).
    inversion H; inversion H0; subst.
    exists (b :: a :: r1). rewrite Ha, Hb, Hr1.
    split; [reflexivity | apply perm_swap].
  - destruct (IH1 _ H) as (r' & Hr' & Hp1).
    destruct (IH2 _ Hr') as (r'' & Hr'' & Hp2).
    exists r''. split; [exact Hr'' | now transitivity r'].
Qed.

Lemma Forall2_In_l {A B : Type} (R : A -> B -> Prop) (l : list A) (r : list B) :
  Forall2 R l r -> forall x, In x l -> exists y, In y r /\ R x y.
Proof.
  induction 1 as [|a b l r Hab _ IH]; simpl; intros x Hx; [tauto|].
  destruct Hx as [<- | Hx].
  - exists b. auto.
  - destruct (IH x Hx) as (y & Hy & Hxy). exists y. auto.
Qed.

Lemma Forall2_In_r {A B : Type} (R : A -> B -> Prop) (l : list A) (r : list B) :
  Forall2 R l r -> forall y, In y r -> exists x, In x l /\ R x y.
Proof.
  induction 1 as [|a b l r Hab _ IH]; simpl; intros y Hy; [tauto|].
  destruct Hy as [<- | Hy].
  - exists a. auto.
  - destruct (IH y Hy) as (x & Hx & Hxy). exists x. auto.
Qed.

(** The loop makes the items of the files that pass the suffix test, in
    the order of the files, and stops at the first one that cannot be
    made. *)
Lemma scan_mapM (files : list dir_entry) (items : list image_item) :
  scan files items
  = fmap (app items) (mapM make_item (filter qualifies files)).
Proof.
  revert items. induction files as [|file files IH]; intros items; simpl.
  - now rewrite app_nil_r.
  - destruct (qualifies file); simpl; [|apply IH].
    destruct (make_item file) as [item|e]; simpl; [|reflexivity].
    rewrite IH. unfold fmap.
    destruct (mapM make_item (filter qualifies files)); simpl; [|reflexivity].
    now rewrite <- app_assoc.
Qed.

Lemma scan_nil (files : list dir_entry) :
  scan files [] = mapM make_item (filter qualifies files).
Proof.
  rewrite scan_mapM. unfold fmap.
  now destruct (mapM make_item (filter qualifies files)).
Qed.

Lemma filter_idem {A : Type} (p : A -> bool) (l : list A) :
  filter p (filter p l) = filter p l.
Proof.
  induction l as [|x l IH]; simpl; [reflexivity|].
  destruct (p x) eqn:Hp; simpl; [now rewrite Hp, IH | exact IH].
Qed.

Lemma load_images_inv (files : list dir_entry) (out : list image_item) :
  _load_images (Some files) = Return out ->
  exists items,
    scan files [] = Return items
    /\ Forall2 (fun file item => make_item file = Return item)
         (filter qualifies files) items
    /\ stable_desc timestamp items out.
Proof.
  simpl. intros H. apply bind_Return in H as (items & Hscan & Hsort).
  exists items. split; [exact Hscan|]. split.
  - apply mapM_Forall2. now rewrite <- scan_nil.
  - destruct (list_sort_stable_desc item_key timestamp items) as (out' & Ho & Hst);
      [reflexivity|].
    rewrite Hsort in Ho. now inversion Ho; subst.
Qed.

Lemma load_images_returns (files : list dir_entry) :
  (forall file, In file files -> qualifies file = true -> readable file) ->
  returns (_load_images (Some files)).
Proof.
  intros H. simpl. rewrite scan_nil.
  destruct (mapM_returns make_item (filter qualifies files)) as (items & Hi).
  { intros file Hin. apply filter_In in Hin as (Hin & Hq).
    apply make_item_readable. now apply H. }
  rewrite Hi. simpl.
  destruct (list_sort_stable_desc item_key timestamp items) as (out & Ho & _);
    [reflexivity|].
  now exists out.
Qed.

Lemma make_item_inv (file : dir_entry) (item : image_item) :
  make_item file = Return item ->
  exists st dt,
    stat file = Return st
    /\ fromtimestamp_utc (st_mtime st) = Return dt
    /\ item = {| filename := name file;
                 url := "/static/images/" ++ name file;
                 timestamp := isoformat dt |}.
Proof.
  unfold make_item. intros H.
  apply bind_Return in H as (st & Hst & H).
  apply bind_Return in H as (dt & Hdt & H).
  inversion H; subst. eauto.
Qed.

(** Two descending lists with the same elements and no key twice are the
    same list. *)
Lemma desc_unique {A : Type} (skey : A -> string) (l1 l2 : list A) :
  StronglySorted (desc skey) l1 -> StronglySorted (desc skey) l2 ->
  Permutation l1 l2 -> NoDup (map skey l1) -> l1 = l2.
Proof.
  intros Hs1. revert l2. induction Hs1 as [|a l1 Hs1 IH Ha]; intros l2 Hs2 Hp Hnd.
  - now apply Permutation_nil in Hp.
  - destruct l2 as [|b l2]; [now apply Permutation_sym, Permutation_nil in Hp|].
    inversion Hs2 as [|? ? Hs2' Hb]; subst.
    inversion Hnd as [|? ? Hnotin Hnd']; subst.
    assert (Hab : a = b).
    { assert (Hina : In a (b :: l2)) by (apply (Permutation_in _ Hp); now left).
      assert (Hinb : In b (a :: l1))
        by (apply (Permutation_in _ (Permutation_sym Hp)); now left).
      destruct Hina as [-> | Hina]; [reflexivity|].
      destruct Hinb as [-> | Hinb]; [reflexivity|].
      exfalso. apply Hnotin.
      rewrite Forall_forall in Ha, Hb.
      replace (skey a) with (skey b)
        by (apply leb_antisym_eq; [apply (Ha _ Hinb) | apply (Hb _ Hina)]).
      now apply in_map. }
    subst b. f_equal. apply IH; trivial.
    now apply Permutation_cons_inv in Hp.
Qed.

Lemma filter_perm {A : Type} (p : A -> bool) (l l' : list A) :
  Permutation l l' -> Permutation (filter p l) (filter p l').
Proof.
  induction 1 as [|x l l' _ IH|x y l|l l' l'' _ IH1 _ IH2]; simpl.
  - constructor.
  - destruct (p x); [now constructor | exact IH].
  - destruct (p x), (p y); try reflexivity. apply perm_swap.
  - now transitivity (filter p l').
Qed.

Lemma load_images_items (files : list dir_entry) (out : list image_item) :
  _load_images (Some files) = Return out ->
  (forall file, In file files -> qualifies file = true ->
     exists item, In item out /\ make_item file = Return item)
  /\ (forall item, In item out ->
       exists file, In file files /\ qualifies file = true
                    /\ make_item file = Return item)
  /\ List.length out = List.length (filter qualifies files).
Proof.
  intros H. apply load_images_inv in H as (items & _ & Hall & Hperm & _).
  repeat split.
  - intros file Hin Hq.
    destruct (Forall2_In_l _ _ _ Hall file) as (item & Hitem & Hmake).
    { apply filter_In. now split. }
    exists item. split; [|exact Hmake]. now apply (Permutation_in _ Hperm).
  - intros item Hin.
    apply (Permutation_in _ (Permutation_sym Hperm)) in Hin.
    destruct (Forall2_In_r _ _ _ Hall item Hin) as (file & Hfile & Hmake).
    apply filter_In in Hfile as (Hfile & Hq). eauto.
  - rewrite <- (Permutation_length Hperm). symmetry.
    eapply Forall2_length. exact Hall.
Qed.

(** The order in which the directory is enumerated does not decide whether
    the call returns, nor which records it returns. *)
Lemma load_images_any_order (files files' : list dir_entry)
  (out : list image_item) :
  _load_images (Some files) = Return out -> Permutation files files' ->
  exists out',
    _load_images (Some files') = Return out'
    /\ StronglySorted (desc timestamp) out'
    /\ Permutation out out'
    /\ (NoDup (map timestamp out) -> out' = out).
Proof.
  intros Hout Hperm.
  pose proof (load_images_inv _ _ Hout) as (items & Hscan & _ & Hstable).
  rewrite scan_nil in Hscan.
  destruct (mapM_perm make_item _ _ (filter_perm qualifies _ _ Hperm) _ Hscan)
    as (items' & Hscan' & Hitems).
  destruct (list_sort_stable_desc item_key timestamp items')
    as (out' & Hsort' & Hstable'); [reflexivity|].
  assert (Hout' : _load_images (Some files') = Return out')
    by (simpl; now rewrite scan_nil, Hscan').
  destruct Hstable as (Hp & Hs & _). destruct Hstable' as (Hp' & Hs' & _).
  assert (Hpo : Permutation out out').
  { rewrite <- Hp, <- Hp'. exact Hitems. }
  exists out'. repeat split; trivial.
  intros Hnd. symmetry. now apply (desc_unique timestamp).
Qed.

(** What the scan makes of the sample directory. *)
Lemma sample_directory_images :
  _load_images (Some sample_directory) = Return sample_images.
Proof. reflexivity. Qed.

Lemma sample_directory_readable (file : dir_entry) :
  In file sample_directory -> qualifies file = true -> readable file.
Proof.
  unfold sample_directory. simpl.
  intros [<-|[<-|[<-|[<-|[<-|[<-|[]]]]]]] Hq; try discriminate Hq;
    (eexists; split; [reflexivity|]);
    unfold MIN_TIMESTAMP, MAX_TIMESTAMP; simpl; lia.
Qed.

(** ** The image endpoint *)

(** C5, as amended.  [_load_images] lists direct entries of the directory
    only, and only those whose suffix, lowered, is one of [.png], [.jpg],
    [.jpeg], [.gif] and [.bmp].  An entry with another suffix or none, a
    subdirectory as well as a file, is left out without error: the outcome
    is the one of the directory without these entries, so [note.txt] is
    never listed, and the scan returns as soon as the entries that do have
    such a suffix can be read.  An entry that has such a suffix is listed,
    a subdirectory as well as a file. *)
Theorem load_images_by_suffix_only (files : list dir_entry) :
  _load_images (Some files) = _load_images (Some (filter qualifies files))
  /\ (forall out, _load_images (Some files) = Return out ->
        (forall item, In item out ->
           mem (lower (suffix (filename item))) IMAGE_SUFFIXES = true
           /\ filename item <> "note.txt"
           /\ exists file, In file files /\ name file = filename item)
        /\ (forall file, In file files -> qualifies file = true ->
             In (name file) (map filename out))
        /\ get_images (Some files)
           = Return {| images := out; images_total := List.length out |})
  /\ ((forall file, In file files -> qualifies file = true -> readable file) ->
      returns (_load_images (Some files))).
Proof.
  split; [|split].
  - simpl. now rewrite !scan_nil, filter_idem.
  - intros out Hout. pose proof (load_images_items _ _ Hout) as (Hfw & Hbw & _).
    repeat split.
    + destruct (Hbw item H) as (file & _ & Hq & Hmake).
      apply make_item_inv in Hmake as (st & dt & _ & _ & ->). exact Hq.
    + destruct (Hbw item H) as (file & _ & Hq & Hmake).
      apply make_item_inv in Hmake as (st & dt & _ & _ & ->).
      simpl. intros Hname. unfold qualifies in Hq. rewrite Hname in Hq.
      discriminate.
    + destruct (Hbw item H) as (file & Hin & _ & Hmake).
      apply make_item_inv in Hmake as (st & dt & _ & _ & ->).
      exists file. auto.
    + intros file Hin Hq. destruct (Hfw file Hin Hq) as (item & Hitem & Hmake).
      apply make_item_inv in Hmake as (st & dt & _ & _ & ->).
      apply (in_map filename) in Hitem. exact Hitem.
    + unfold get_images. now rewrite Hout.
  - apply load_images_returns.
Qed.

Lemma load_images_by_suffix_only_witness :
  returns (_load_images (Some sample_directory))
  /\ _load_images (Some sample_directory) = Return sample_images
  /\ (forall item, In item sample_images -> filename item <> "note.txt")
  /\ In "album.png" (map filename sample_images).
Proof.
  pose proof (load_images_by_suffix_only sample_directory)
    as (_ & Hout & Hret).
  destruct (Hout sample_images sample_directory_images) as (Honly & Hall & _).
  split; [exact (Hret sample_directory_readable)|].
  split; [exact sample_directory_images|]. split.
  - intros item Hin. exact (proj1 (proj2 (Honly item Hin))).
  - apply (Hall (entry "album.png" true 1704067200000000)).
    + simpl. tauto.
    + reflexivity.
Defined.

(** C5, as stated, fails: a subdirectory whose name ends in [.png] is
    listed. *)
Lemma subdirectory_with_image_suffix_is_listed :
  exists out,
    _load_images (Some [entry "album.png" true 1704067200000000;
                        entry "cam1.jpg" false 1704070800000000])
    = Return out
    /\ is_subdirectory (entry "album.png" true 1704067200000000) = true
    /\ In "album.png" (map filename out).
Proof.
  exists [ {| filename := "cam1.jpg"; url := "/static/images/cam1.jpg";
              timestamp := "2024-01-01T01:00:00+00:00" |};
           {| filename := "album.png"; url := "/static/images/album.png";
              timestamp := "2024-01-01T00:00:00+00:00" |} ].
  repeat split. simpl. tauto.
Qed.

(** C6.  [_load_images] returns whenever the entries that pass the suffix
    test can be read.  When it returns, every such entry has its record in
    the result: [filename] is the base name as it is, [url] is
    [/static/images/] followed by that name, and [timestamp] is the ISO text
    of the UTC date and time that stands for the entry's modification time,
    ending in the offset [+00:00]; and the result holds no other record. *)
Theorem image_record_fields (files : list dir_entry) :
  ((forall file, In file files -> qualifies file = true -> readable file) ->
   returns (_load_images (Some files)))
  /\ forall out, _load_images (Some files) = Return out ->
     (forall file, In file files -> qualifies file = true ->
        exists st dt,
          stat file = Return st
          /\ fromtimestamp_utc (st_mtime st) = Return dt
          /\ In {| filename := name file;
                   url := "/static/images/" ++ name file;
                   timestamp := isoformat dt |} out
          /\ utcoffset dt = 0
          /\ timestamp_us dt = st_mtime st
          /\ exists text,
               isoformat dt = text ++ "+00:00"
               /\ (String.length text = 19%nat \/ String.length text = 26%nat))
     /\ (forall item, In item out ->
          exists file,
            In file files /\ qualifies file = true
            /\ make_item file = Return item
            /\ filename item = name file
            /\ url item = "/static/images/" ++ filename item)
     /\ List.length out = List.length (filter qualifies files).
Proof.
  split; [apply load_images_returns|].
  intros out Hout.
  pose proof (load_images_items _ _ Hout) as (Hfw & Hbw & Hlen).
  repeat split; trivial.
  - intros file Hin Hq. destruct (Hfw file Hin Hq) as (item & Hitem & Hmake).
    apply make_item_inv in Hmake as (st & dt & Hst & Hdt & ->).
    pose proof (fromtimestamp_utc_fields _ _ Hdt) as (_ & _ & Hoff & Hts).
    exists st, dt. repeat split; trivial. now apply isoformat_utc.
  - intros item Hin. destruct (Hbw item Hin) as (file & Hfile & Hq & Hmake).
    exists file. repeat split; trivial;
      apply make_item_inv in Hmake as (st & dt & _ & _ & ->); reflexivity.
Qed.

Lemma image_record_fields_witness :
  returns (_load_images (Some sample_directory))
  /\ _load_images (Some sample_directory) = Return sample_images
  /\ exists st dt,
       stat (entry "cam2.PNG" false 1704153600250000) = Return st
       /\ fromtimestamp_utc (st_mtime st) = Return dt
       /\ In {| filename := "cam2.PNG"; url := "/static/images/cam2.PNG";
                timestamp := isoformat dt |} sample_images
       /\ timestamp_us dt = 1704153600250000.
Proof.
  pose proof (image_record_fields sample_directory) as (Hret & Hout).
  split; [exact (Hret sample_directory_readable)|].
  split; [exact sample_directory_images|].
  destruct (proj1 (Hout sample_images sample_directory_images)
              (entry "cam2.PNG" false 1704153600250000))
    as (st & dt & Hst & Hdt & Hin & _ & Hts & _).
  - simpl. tauto.
  - reflexivity.
  - exists st, dt. repeat split; trivial.
    rewrite Hts. simpl in Hst. now inversion Hst.
Defined.

(** C7.  [_load_images] returns whenever the entries that pass the suffix
    test can be read.  When it returns, its result, which is what
    [/api/images] sends, is the list of records of the scan sorted by
    timestamp, descending under the order of strings, records with the same
    timestamp in the order of the scan.  Whatever the order in which the
    directory is enumerated, the call returns, the result is sorted in that
    way and holds the same records; when no two records share a timestamp it
    is the same list. *)
Theorem load_images_sorted_desc_stable (files : list dir_entry) :
  ((forall file, In file files -> qualifies file = true -> readable file) ->
   returns (_load_images (Some files)))
  /\ forall out, _load_images (Some files) = Return out ->
     (exists items,
        scan files [] = Return items /\ stable_desc timestamp items out)
     /\ get_images (Some files)
        = Return {| images := out; images_total := List.length out |}
     /\ forall files', Permutation files files' ->
          exists out',
            _load_images (Some files') = Return out'
            /\ StronglySorted (desc timestamp) out'
            /\ Permutation out out'
            /\ (NoDup (map timestamp out) -> out' = out).
Proof.
  split; [apply load_images_returns|].
  intros out Hout.
  pose proof (load_images_inv _ _ Hout) as (items & Hscan & _ & Hstable).
  split; [eauto|]. split; [unfold get_images; now rewrite Hout|].
  intros files' Hperm. now apply (load_images_any_order files).
Qed.

Lemma load_images_sorted_desc_stable_witness :
  returns (_load_images (Some sample_directory))
  /\ _load_images (Some sample_directory) = Return sample_images
  /\ exists out',
       _load_images (Some (rev sample_directory)) = Return out'
       /\ StronglySorted (desc timestamp) out'
       /\ Permutation sample_images out'.
Proof.
  pose proof (load_images_sorted_desc_stable sample_directory) as (Hret & Hout).
  split; [exact (Hret sample_directory_readable)|].
  split; [exact sample_directory_images|].
  destruct (proj2 (proj2 (Hout sample_images sample_directory_images))
              (rev sample_directory) (Permutation_rev sample_directory))
    as (out' & Hout' & Hs & Hp & _).
  exists out'. auto.
Defined.

(** ** Absent state *)

(** C2.  Without a log document [_load_logs] returns the empty list, and
    without an image directory so does [_load_images]; neither raises, and
    each endpoint answers 200 with an empty list and a total of 0. *)
Theorem absent_state_is_empty_result :
  _load_logs None = Return []
  /\ _load_images None = Return []
  /\ get_logs None = Return {| events := []; events_total := 0 |}
  /\ get_images None = Return {| images := []; images_total := 0 |}
  /\ (forall dir now,
        handle GET_logs (snapshot None dir now)
        = {| code := 200;
             body := LogsJSON {| events := []; events_total := 0 |} |})
  /\ (forall doc now,
        handle GET_images (snapshot doc None now)
        = {| code := 200;
             body := ImagesJSON {| images := []; images_total := 0 |} |}).
Proof. repeat split. Qed.

(** ** One request against another *)

(** C8, as amended.  The answer to a read request is a function of the
    state the request observes, and for the image directory that state
    includes the order in which the entries are enumerated.  The answer of
    [/api/logs] is the same whatever the image directory and the clock are,
    and the answer of [/api/images] the same whatever the log file and the
    clock are.  For two enumerations of the same entries, with the same
    modification times, [get_images] returns for both or for neither, and
    the two results hold the same records, equally sorted, with the same
    total; they are the same result when no two records share a timestamp
    (records that do follow the order of the enumeration). *)
Theorem read_endpoints_are_functions_of_state (files1 files2 : list dir_entry) :
  Permutation files1 files2 ->
  (forall doc dir1 dir2 now1 now2,
     handle GET_logs (snapshot doc dir1 now1)
     = handle GET_logs (snapshot doc dir2 now2))
  /\ (forall doc1 doc2 now1 now2,
       handle GET_images (snapshot doc1 (Some files1) now1)
       = handle GET_images (snapshot doc2 (Some files1) now2))
  /\ (returns (get_images (Some files1)) <-> returns (get_images (Some files2)))
  /\ forall b1, get_images (Some files1) = Return b1 ->
       exists b2,
         get_images (Some files2) = Return b2
         /\ Permutation (images b1) (images b2)
         /\ images_total b2 = images_total b1
         /\ StronglySorted (desc timestamp) (images b1)
         /\ StronglySorted (desc timestamp) (images b2)
         /\ (NoDup (map timestamp (images b1)) -> b2 = b1).
Proof.
  intros Hperm.
  assert (Hany : forall fs fs' b, Permutation fs fs' ->
            get_images (Some fs) = Return b ->
            exists out',
              _load_images (Some fs) = Return (images b)
              /\ images_total b = List.length (images b)
              /\ _load_images (Some fs') = Return out'
              /\ StronglySorted (desc timestamp) out'
              /\ Permutation (images b) out'
              /\ (NoDup (map timestamp (images b)) -> out' = images b)).
  { intros fs fs' b Hp Hb. unfold get_images in Hb.
    apply bind_Return in Hb as (out & Hout & Hb). inversion Hb; subst b.
    simpl. destruct (load_images_any_order _ _ _ Hout Hp)
      as (out' & Hout' & Hs' & Hpo & Heq).
    exists out'. repeat split; trivial. }
  split; [reflexivity|]. split; [reflexivity|]. split.
  - split; intros (b & Hb).
    + destruct (Hany _ _ _ Hperm Hb) as (out' & _ & _ & Hout' & _).
      unfold get_images. rewrite Hout'. simpl. eexists. reflexivity.
    + destruct (Hany _ _ _ (Permutation_sym Hperm) Hb)
        as (out' & _ & _ & Hout' & _).
      unfold get_images. rewrite Hout'. simpl. eexists. reflexivity.
  - intros b1 Hb1.
    destruct (Hany _ _ _ Hperm Hb1)
      as (out' & Hout & Htot & Hout' & Hs' & Hpo & Heq).
    exists {| images := out'; images_total := List.length out' |}.
    pose proof (load_images_inv _ _ Hout) as (_ & _ & _ & _ & Hs & _).
    simpl. repeat split; trivial.
    + unfold get_images. now rewrite Hout'.
    + rewrite Htot. symmetry. now apply Permutation_length.
    + intros Hnd. rewrite (Heq Hnd). destruct b1 as [imgs tot].
      simpl in *. now subst tot.
Qed.

Lemma read_endpoints_are_functions_of_state_witness :
  Permutation sample_directory (rev sample_directory)
  /\ get_images (Some sample_directory)
     = Return {| images := sample_images; images_total := 3 |}
  /\ exists b2,
       get_images (Some (rev sample_directory)) = Return b2
       /\ Permutation sample_images (images b2)
       /\ images_total b2 = 3%nat.
Proof.
  assert (Hget : get_images (Some sample_directory)
                 = Return {| images := sample_images; images_total := 3 |})
    by reflexivity.
  split; [apply Permutation_rev|]. split; [exact Hget|].
  destruct (proj2 (proj2 (proj2 (read_endpoints_are_functions_of_state
              sample_directory (rev sample_directory)
              (Permutation_rev sample_directory)))) _ Hget)
    as (b2 & Hb2 & Hp & Ht & _).
  exists b2. auto.
Defined.

(** C8, as stated, fails: the same two entries, with the same modification
    times, enumerated in the other order give another result, since
    records with equal timestamps keep the order of the enumeration. *)
Lemma same_entries_other_order_other_result :
  Permutation tied_directory (rev tied_directory)
  /\ map stat tied_directory = rev (map stat (rev tied_directory))
  /\ get_images (Some tied_directory) <> get_images (Some (rev tied_directory))
  /\ handle GET_images (snapshot None (Some tied_directory) 0)
     <> handle GET_images (snapshot None (Some (rev tied_directory)) 0).
Proof.
  split; [apply Permutation_rev|]. split; [reflexivity|].
  split; intros H; vm_compute in H; discriminate.
Qed.

(** * Further properties of the endpoints *)

(** ** The status endpoint *)

(** X1.  [get_status] reads the clock and nothing else: whatever the log file
    and the image directory hold, a corrupt log included, while the clock is
    within the years 1 to 9999 the answer is 200 with status [online] and,
    as time, the ISO text with offset [+00:00] of the date and time that
    stands for the clock. *)
Theorem get_status_online (doc : log_path) (dir : images_dir) (now : Z) :
  MIN_TIMESTAMP <= now <= MAX_TIMESTAMP ->
  exists dt text,
    handle GET_status (snapshot doc dir now)
    = {| code := 200;
         body := StatusJSON {| status := "online"; time := isoformat dt |} |}
    /\ timestamp_us dt = now
    /\ isoformat dt = text ++ "+00:00"
    /\ (String.length text = 19%nat \/ String.length text = 26%nat).
Proof.
  intros Hnow. destruct (fromtimestamp_utc_returns now Hnow) as (dt & Hdt).
  pose proof (fromtimestamp_utc_fields _ _ Hdt) as (_ & _ & Hoff & Hts).
  destruct (isoformat_utc dt Hoff) as (text & Htext & Hlen).
  exists dt, text. repeat split; trivial.
  unfold handle, snapshot, get_status. simpl clock. now rewrite Hdt.
Qed.

Lemma get_status_online_witness :
  MIN_TIMESTAMP <= 1704153600250000 <= MAX_TIMESTAMP
  /\ exists dt text,
       handle GET_status (snapshot (Some (ParseError "Expecting value")) None
                            1704153600250000)
       = {| code := 200;
            body := StatusJSON {| status := "online"; time := isoformat dt |} |}
       /\ timestamp_us dt = 1704153600250000
       /\ isoformat dt = text ++ "+00:00"
       /\ (String.length text = 19%nat \/ String.length text = 26%nat).
Proof.
  assert (H : MIN_TIMESTAMP <= 1704153600250000 <= MAX_TIMESTAMP)
    by (unfold MIN_TIMESTAMP, MAX_TIMESTAMP; lia).
  split; [exact H|].
  exact (get_status_online (Some (ParseError "Expecting value")) None
           1704153600250000 H).
Defined.

(** ** What [get_logs] returns, whatever the timestamps *)

Lemma with_keys_Forall2 {A : Type} (key : A -> result json) (l : list A)
  (kl : list (json * A)) :
  with_keys key l = Return kl ->
  Forall2 (fun x p => key x = Return (fst p) /\ snd p = x) l kl.
Proof.
  revert kl. induction l as [|x l IH]; simpl; intros kl H.
  - inversion H. constructor.
  - apply bind_Return in H as (k & Hk & H).
    apply bind_Return in H as (r & Hr & H).
    inversion H; subst. constructor; auto.
Qed.

Lemma list_sort_keys_return {A : Type} (key : A -> result json)
  (reverse : bool) (l out : list A) :
  list_sort key reverse l = Return out -> forall x, In x l -> returns (key x).
Proof.
  unfold list_sort. intros H x Hx.
  apply bind_Return in H as (kl & Hkl & _).
  apply with_keys_Forall2 in Hkl.
  destruct (Forall2_In_l _ _ _ Hkl x Hx) as (p & _ & Hp & _).
  now exists (fst p).
Qed.

(** X2.  When [get_logs] returns, it returns the events of the log array, all of
    them and no other (none lost, none made up, none changed), with their
    number as total; and every one of them is an object.  Without a log
    file that is the empty list. *)
Theorem get_logs_returns_the_events (doc : log_path) (b : logs_body) :
  get_logs doc = Return b ->
  exists evs,
    (doc = None /\ evs = [] \/ doc = Some (Parsed (JArr evs)))
    /\ Permutation evs (events b)
    /\ events_total b = List.length evs
    /\ forallb is_object (events b) = true.
Proof.
  unfold get_logs. intros H.
  apply bind_Return in H as (evs & Hload & H).
  apply bind_Return in H as (out & Hsort & H). inversion H; subst; clear H.
  unfold sorted in Hsort.
  pose proof (list_sort_perm _ _ _ _ Hsort) as Hperm.
  exists evs. simpl events. simpl events_total. repeat split.
  - destruct doc as [[e | exc | raw]|]; simpl in Hload; try discriminate.
    + destruct raw; try discriminate. inversion Hload. now right.
    + inversion Hload. now left.
  - exact Hperm.
  - now rewrite (Permutation_length Hperm).
  - apply forallb_forall. intros e He.
    apply (Permutation_in _ (Permutation_sym Hperm)) in He.
    destruct (list_sort_keys_return _ _ _ _ Hsort e He) as (k & Hk).
    destruct e; simpl in Hk; try discriminate. reflexivity.
Qed.

Lemma sample_events_response :
  get_logs (Some (Parsed (JArr sample_events)))
  = Return {| events := sample_events_sorted; events_total := 4 |}.
Proof. reflexivity. Qed.

Lemma get_logs_returns_the_events_witness :
  get_logs (Some (Parsed (JArr sample_events)))
  = Return {| events := sample_events_sorted; events_total := 4 |}
  /\ Permutation sample_events sample_events_sorted
  /\ forallb is_object sample_events_sorted = true.
Proof.
  split; [exact sample_events_response|].
  destruct (get_logs_returns_the_events _ _ sample_events_response)
    as (evs & [[Hd _] | Hd] & Hperm & _ & Hobj); [discriminate|].
  inversion Hd; subst evs. split; [exact Hperm | exact Hobj].
Defined.

(** X3.  One element of the log array that is not an object (a number, a string,
    a list, [null]) is enough for [get_logs] to raise [AttributeError],
    whatever the other events are: the keys of all events are computed
    before anything is compared.  The response is a bare 500. *)
Theorem get_logs_non_object_event (evs : list json) :
  forallb is_object evs = false ->
  get_logs (Some (Parsed (JArr evs))) = Raise AttributeError
  /\ forall dir now,
       handle GET_logs (snapshot (Some (Parsed (JArr evs))) dir now)
       = {| code := 500; body := InternalServerError |}.
Proof.
  intros Hevs.
  assert (Hkeys : with_keys timestamp_key evs = Raise AttributeError).
  { induction evs as [|e evs IH]; simpl in *; [discriminate|].
    destruct e; simpl in *; try reflexivity.
    rewrite (IH Hevs). reflexivity. }
  assert (Hget : get_logs (Some (Parsed (JArr evs))) = Raise AttributeError).
  { rewrite get_logs_parsed_array. unfold list_sort. now rewrite Hkeys. }
  split; [exact Hget|].
  intros dir now. unfold handle, snapshot. simpl logs_json. now rewrite Hget.
Qed.

Lemma get_logs_non_object_event_witness :
  forallb is_object
    [JObj [("timestamp", JStr "2024-01-01T00:00:00Z")]; JStr "reboot"] = false
  /\ get_logs (Some (Parsed (JArr
        [JObj [("timestamp", JStr "2024-01-01T00:00:00Z")]; JStr "reboot"])))
     = Raise AttributeError.
Proof.
  split; [reflexivity|].
  exact (proj1 (get_logs_non_object_event
                  [JObj [("timestamp", JStr "2024-01-01T00:00:00Z")];
                   JStr "reboot"] eq_refl)).
Defined.

(** ** Sorting what is sorted *)

Lemma ins_below {A : Type} (skey : A -> string) (x : A) (l : list A) :
  Forall (fun y => String.leb (skey x) (skey y) = true) l ->
  ins skey x l = x :: l.
Proof.
  destruct l as [|y l]; simpl; [reflexivity|]. intros H.
  inversion H as [|? ? Hxy _]; subst.
  apply ltb_false_leb in Hxy. now rewrite Hxy.
Qed.

Lemma isort_ascending {A : Type} (skey : A -> string) (l : list A) :
  StronglySorted (fun a b => String.leb (skey a) (skey b) = true) l ->
  isort skey l = l.
Proof.
  induction 1 as [|x l Hs IH Hx]; simpl; [reflexivity|].
  rewrite IH. now apply ins_below.
Qed.

Lemma list_sort_descending {A : Type} (key : A -> result json)
  (skey : A -> string) (l : list A) :
  (forall x, In x l -> key x = Return (JStr (skey x))) ->
  StronglySorted (desc skey) l ->
  list_sort key true l = Return l.
Proof.
  intros Hkey Hs. rewrite (list_sort_string_keys key skey l Hkey).
  rewrite isort_ascending; [now rewrite rev_involutive|].
  apply StronglySorted_rev in Hs. exact Hs.
Qed.

(** X4.  [get_logs] leaves an array of log events that is in descending order
    as it is; so sending its own output through it again changes nothing. *)
Theorem get_logs_keeps_sorted_events (evs : list json) :
  forallb is_log_event evs = true ->
  (StronglySorted (desc timestamp_of) evs ->
   get_logs (Some (Parsed (JArr evs)))
   = Return {| events := evs; events_total := List.length evs |})
  /\ forall b,
       get_logs (Some (Parsed (JArr evs))) = Return b ->
       get_logs (Some (Parsed (JArr (events b)))) = Return b.
Proof.
  intros Hev. rewrite forallb_forall in Hev.
  assert (Hkey : forall l, (forall e, In e l -> In e evs) ->
                 forall e, In e l ->
                 timestamp_key e = Return (JStr (timestamp_of e)))
    by (intros l Hl e He; apply timestamp_key_log_event, Hev, Hl, He).
  split.
  - intros Hs. rewrite get_logs_parsed_array.
    rewrite (list_sort_descending timestamp_key timestamp_of evs); trivial.
    apply (Hkey evs). auto.
  - intros b Hb. rewrite get_logs_parsed_array in Hb.
    destruct (list_sort_stable_desc timestamp_key timestamp_of evs)
      as (out & Hout & Hperm & Hs & _); [apply (Hkey evs); auto|].
    rewrite Hout in Hb. simpl in Hb. inversion Hb; subst b; clear Hb.
    simpl events. rewrite get_logs_parsed_array.
    rewrite (list_sort_descending timestamp_key timestamp_of out); trivial.
    apply (Hkey out). intros e He.
    now apply (Permutation_in _ (Permutation_sym Hperm)).
Qed.

Lemma get_logs_keeps_sorted_events_witness :
  forallb is_log_event sample_events = true
  /\ get_logs (Some (Parsed (JArr sample_events)))
     = Return {| events := sample_events_sorted; events_total := 4 |}
  /\ get_logs (Some (Parsed (JArr sample_events_sorted)))
     = Return {| events := sample_events_sorted; events_total := 4 |}.
Proof.
  split; [reflexivity|]. split; [exact sample_events_response|].
  exact (proj2 (get_logs_keeps_sorted_events sample_events eq_refl)
           _ sample_events_response).
Defined.

(** ** Timestamps of more than one kind *)

Lemma compared_is_str (a b : json) : compared a b -> is_str a = is_str b.
Proof.
  destruct a, b; try reflexivity; intros [[r H] | [r H]]; simpl in H;
    try discriminate;
    repeat match goal with
           | b : bool |- _ => destruct b; simpl in H
           end; discriminate.
Qed.

Lemma chain_uniform (l : list json) :
  chain l -> forall a b, In a l -> In b l -> is_str a = is_str b.
Proof.
  induction l as [|x l IH]; [simpl; tauto|].
  destruct l as [|y l].
  - intros _ a b [<-|[]] [<-|[]]. reflexivity.
  - intros (Hxy & Hc) a b Ha Hb. apply compared_is_str in Hxy.
    assert (Hy : forall c, In c (x :: y :: l) -> is_str c = is_str y).
    { intros c [<- | Hc']; [exact Hxy|]. apply (IH Hc); simpl; auto. }
    now rewrite (Hy a Ha), (Hy b Hb).
Qed.

Lemma insert_lt_chain {A : Type} (x : json * A) (l r : list (json * A)) :
  chain (map fst l) -> insert_lt x l = Return r -> chain (map fst r).
Proof.
  revert r. induction l as [|y l IH]; simpl insert_lt; intros r Hc H.
  - inversion H. simpl. trivial.
  - apply bind_Return in H as (c & Hyx & H).
    assert (Hcl : chain (map fst l)) by (destruct l; simpl in *; tauto).
    destruct c.
    + apply bind_Return in H as (r' & Hr' & H). inversion H; subst; clear H.
      pose proof (IH r' Hcl Hr') as Hcr'.
      destruct l as [|z l].
      * inversion Hr'; subst. simpl. split; [|trivial].
        left. now exists true.
      * simpl in Hr'. apply bind_Return in Hr' as (c2 & Hzx & Hr').
        destruct c2.
        -- apply bind_Return in Hr' as (r'' & _ & Hr'). inversion Hr'; subst.
           simpl in *. split; [tauto | exact Hcr'].
        -- inversion Hr'; subst. simpl in *. split; [|exact Hcr'].
           left. now exists true.
    + inversion H; subst. simpl. split; [|exact Hc].
      right. now exists false.
Qed.

Lemma sort_lt_chain {A : Type} (l r : list (json * A)) :
  sort_lt l = Return r -> chain (map fst r).
Proof.
  revert r. induction l as [|x l IH]; simpl; intros r H.
  - inversion H. simpl. trivial.
  - apply bind_Return in H as (s & Hs & H).
    eapply insert_lt_chain; [|exact H]. now apply IH.
Qed.

Lemma timestamp_key_is_str (e k : json) :
  timestamp_key e = Return k -> is_log_event e = is_str k.
Proof.
  destruct e as [ | | | | | items]; simpl; try discriminate.
  intros H. inversion H; subst; clear H.
  destruct (lookup "timestamp" items) as [[ | | | | | ]|]; reflexivity.
Qed.

(** X5.  [get_logs] returns only on timestamps of one kind: when it returns on
    an array in which some event is a log event (its timestamp is a string
    or missing), every event of the array is one.  With the sorted result
    for arrays of log events this says that, on an array that holds a log
    event, [get_logs] returns exactly when all its events are log events. *)
Theorem get_logs_returns_on_one_kind (evs : list json) (b : logs_body) :
  get_logs (Some (Parsed (JArr evs))) = Return b ->
  existsb is_log_event evs = true ->
  forallb is_log_event evs = true.
Proof.
  rewrite get_logs_parsed_array. unfold fmap, list_sort. intros H Hex.
  apply bind_Return in H as (out & H & _).
  apply bind_Return in H as (kl & Hkl & H).
  apply bind_Return in H as (s & Hs & _).
  pose proof (sort_lt_chain _ _ Hs) as Hchain.
  pose proof (sort_lt_perm _ _ Hs) as Hperm.
  apply with_keys_Forall2 in Hkl.
  assert (Hin : forall e, In e evs ->
            exists k, In k (map fst s) /\ is_log_event e = is_str k).
  { intros e He. destruct (Forall2_In_l _ _ _ Hkl e He) as (p & Hp & Hk & _).
    exists (fst p). split; [|now apply timestamp_key_is_str].
    apply in_map. apply (Permutation_in _ Hperm). now apply -> in_rev. }
  apply existsb_exists in Hex as (e0 & He0 & Hlog0).
  destruct (Hin e0 He0) as (k0 & Hk0 & Hs0).
  apply forallb_forall. intros e He.
  destruct (Hin e He) as (k & Hk & Hse).
  rewrite Hse, (chain_uniform _ Hchain k k0 Hk Hk0), <- Hs0. exact Hlog0.
Qed.

Lemma get_logs_returns_on_one_kind_witness :
  get_logs (Some (Parsed (JArr sample_events)))
  = Return {| events := sample_events_sorted; events_total := 4 |}
  /\ existsb is_log_event sample_events = true
  /\ forallb is_log_event sample_events = true.
Proof.
  split; [exact sample_events_response|]. split; [reflexivity|].
  exact (get_logs_returns_on_one_kind _ _ sample_events_response eq_refl).
Defined.

(** ** An entry that cannot be read *)

Lemma mapM_raises_first {A B : Type} (f : A -> result B) (l : list A) (x : A)
  (e : exn) :
  In x l -> f x = Raise e ->
  exists before x' after e',
    l = (before ++ x' :: after)%list
    /\ (forall y, In y before -> returns (f y))
    /\ f x' = Raise e' /\ mapM f l = Raise e'.
Proof.
  induction l as [|y l IH]; simpl; [tauto|]. intros Hin Hx.
  destruct (f y) as [v|e'] eqn:Hy; simpl.
  - destruct Hin as [-> | Hin]; [congruence|].
    destruct (IH Hin Hx) as (before & x' & after & e' & -> & Hb & Hfx' & Hm).
    exists (y :: before), x', after, e'. rewrite Hm. repeat split; trivial.
    intros z [<- | Hz]; [now exists v | now apply Hb].
  - exists [], y, l, e'. repeat split; trivial. intros z [].
Qed.

Lemma filter_split {A : Type} (p : A -> bool) (l x r : list A) (a : A) :
  filter p l = (x ++ a :: r)%list ->
  exists l1 l2,
    l = (l1 ++ a :: l2)%list /\ filter p l1 = x /\ filter p l2 = r.
Proof.
  revert x. induction l as [|b l IH]; simpl; intros x H.
  - destruct x; discriminate.
  - destruct (p b) eqn:Hb.
    + destruct x as [|c x]; simpl in H; inversion H; subst.
      * exists [], l. auto.
      * destruct (IH x H2) as (l1 & l2 & -> & H1 & Hr).
        exists (c :: l1), l2. simpl. rewrite Hb, H1. auto.
    + destruct (IH x H) as (l1 & l2 & -> & H1 & Hr).
      exists (b :: l1), l2. simpl. rewrite Hb. auto.
Qed.

Lemma make_item_raises (file : dir_entry) (e : exn) :
  make_item file = Raise e ->
  stat file = Raise e
  \/ exists st, stat file = Return st
                /\ fromtimestamp_utc (st_mtime st) = Raise e
                /\ (e = ValueError \/ e = OSError \/ e = OverflowError).
Proof.
  unfold make_item. destruct (stat file) as [st|e'] eqn:Hst; simpl.
  - destruct (fromtimestamp_utc (st_mtime st)) as [dt|e'] eqn:Hdt; simpl;
      [discriminate|].
    intros H. inversion H; subst. right. exists st.
    repeat split; trivial.
    unfold fromtimestamp_utc in Hdt.
    destruct (civil_from_days (st_mtime st / 86400000000)) as [[y m] d].
    destruct ((MINYEAR <=? y) && (y <=? MAXYEAR)); [discriminate|].
    inversion Hdt. unfold out_of_range.
    repeat match goal with
           | |- context [if ?c then _ else _] => destruct c
           end; auto.
  - intros H. inversion H; subst. now left.
Qed.

(** X6.  The listing is all or nothing: when some entry with an image
    suffix cannot be made into a record, [_load_images] and [get_images]
    raise and return no record at all, the readable pictures included.  The
    exception is the one of the first such entry in the order of the
    enumeration: what [stat()] raised on it, or what [fromtimestamp] raised
    on its modification time ([ValueError] for a year outside 1 to 9999,
    [OSError] and [OverflowError] further out). *)
Theorem load_images_all_or_nothing (files : list dir_entry) (file : dir_entry)
  (e : exn) :
  In file files -> qualifies file = true -> make_item file = Raise e ->
  exists before file' after e',
    files = (before ++ file' :: after)%list
    /\ (forall f, In f before -> qualifies f = true -> returns (make_item f))
    /\ qualifies file' = true
    /\ make_item file' = Raise e'
    /\ (stat file' = Raise e'
        \/ exists st, stat file' = Return st
                      /\ fromtimestamp_utc (st_mtime st) = Raise e'
                      /\ (e' = ValueError \/ e' = OSError
                          \/ e' = OverflowError))
    /\ _load_images (Some files) = Raise e'
    /\ get_images (Some files) = Raise e'.
Proof.
  intros Hin Hq He.
  destruct (mapM_raises_first make_item (filter qualifies files) file e)
    as (qbefore & file' & qafter & e' & Hsplit & Hbefore & He' & Hm);
    [now apply filter_In | exact He |].
  destruct (filter_split _ _ _ _ _ Hsplit) as (before & after & -> & Hfb & _).
  assert (Hq' : qualifies file' = true).
  { assert (Hin' : In file' (filter qualifies (before ++ file' :: after)%list))
      by (rewrite Hsplit; apply in_or_app; right; now left).
    now apply filter_In in Hin'. }
  assert (Hload : _load_images (Some (before ++ file' :: after)%list)
                  = Raise e')
    by (simpl; now rewrite scan_nil, Hm).
  exists before, file', after, e'. repeat split; trivial.
  - intros f Hf Hqf. apply Hbefore. rewrite <- Hfb. now apply filter_In.
  - now apply make_item_raises.
  - unfold get_images. now rewrite Hload.
Qed.

Lemma load_images_all_or_nothing_witness :
  In (dangling "cam2.jpg") broken_directory
  /\ qualifies (dangling "cam2.jpg") = true
  /\ make_item (dangling "cam2.jpg") = Raise OSError
  /\ exists before file' after e',
       broken_directory = (before ++ file' :: after)%list
       /\ make_item file' = Raise e'
       /\ _load_images (Some broken_directory) = Raise e'
       /\ get_images (Some broken_directory) = Raise e'.
Proof.
  assert (Hin : In (dangling "cam2.jpg") broken_directory)
    by (simpl; tauto).
  split; [exact Hin|]. split; [reflexivity|]. split; [reflexivity|].
  destruct (load_images_all_or_nothing broken_directory
              (dangling "cam2.jpg") OSError Hin eq_refl eq_refl)
    as (before & file' & after & e' & Hs & _ & _ & Hm & _ & Hload & Hget).
  exists before, file', after, e'. repeat split; trivial.
Defined.

(** ** The calendar *)

Lemma civil_from_days_day (z : Z) :
  let '(y, m, d) := civil_from_days z in d <= days_in_month y m.
Proof.
  unfold civil_from_days, days_in_month, is_leap.
  set (z' := z + 719468).
  set (era := z' / 146097).
  set (doe := z' - era * 146097).
  set (yoe := (doe - doe / 1460 + doe / 36524 - doe / 146096) / 365).
  set (doy := doe - (365 * yoe + yoe / 4 - yoe / 100)).
  set (mp := (5 * doy + 2) / 153).
  assert (Hdoe : 0 <= doe < 146097)
    by (unfold doe, era; Z.div_mod_to_equations; lia).
  assert (Hyoe : 0 <= yoe < 400) by (unfold yoe; Z.div_mod_to_equations; lia).
  assert (Htight : doe < 365 * (yoe + 1) + (yoe + 1) / 4 - (yoe + 1) / 100
                         + (yoe + 1) / 400)
    by (unfold yoe; Z.div_mod_to_equations; lia).
  assert (Hdoy : 0 <= doy < 366)
    by (unfold doy, yoe; Z.div_mod_to_equations; lia).
  assert (Hmp : 0 <= mp < 12) by (unfold mp; Z.div_mod_to_equations; lia).
  assert (Hdoe' : doe = doy + 365 * yoe + yoe / 4 - yoe / 100)
    by (unfold doy; lia).
  assert (Hmpd : 153 * mp <= 5 * doy + 2 < 153 * mp + 153)
    by (unfold mp; Z.div_mod_to_equations; lia).
  clearbody mp doy yoe doe era. clear z'.
  assert (Hcases : mp = 0 \/ mp = 1 \/ mp = 2 \/ mp = 3 \/ mp = 4 \/ mp = 5 \/
                   mp = 6 \/ mp = 7 \/ mp = 8 \/ mp = 9 \/ mp = 10 \/ mp = 11)
    by lia.
  destruct Hcases as [H|[H|[H|[H|[H|[H|[H|[H|[H|[H|[H|H]]]]]]]]]]]; subst mp;
    repeat match goal with
           | |- context [Z.to_nat ?e] =>
               let v := eval vm_compute in (Z.to_nat e) in
               change (Z.to_nat e) with v
           | |- context [?a <? ?b] =>
               let v := eval vm_compute in (a <? b) in change (a <? b) with v
           | |- context [?a <=? ?b] =>
               let v := eval vm_compute in (a <=? b) in change (a <=? b) with v
           | |- context [?a + ?b =? 2] =>
               let v := eval vm_compute in (a + b =? 2) in
               change (a + b =? 2) with v
           | |- context [?a - ?b =? 2] =>
               let v := eval vm_compute in (a - b =? 2) in
               change (a - b =? 2) with v
           end;
    cbn [nth andb];
    repeat match goal with
           | |- context [?a =? ?b] => destruct (Z.eqb_spec a b)
           end;
    cbn [negb orb andb nth];
    Z.div_mod_to_equations; lia.
Qed.

Lemma days_before_year_succ (y : Z) :
  days_before_year (y + 1)
  = days_before_year y + 365 + (if is_leap y then 1 else 0).
Proof.
  unfold days_before_year, is_leap.
  replace (y + 1 - 1) with y by lia.
  repeat match goal with
         | |- context [?a =? ?b] => destruct (Z.eqb_spec a b)
         end; cbn [negb orb andb]; Z.div_mod_to_equations; lia.
Qed.

Lemma days_before_year_mono (y1 y2 : Z) :
  y1 <= y2 -> days_before_year y1 <= days_before_year y2.
Proof. unfold days_before_year. intros H. Z.div_mod_to_equations. lia. Qed.

Lemma days_before_month_next (y m m' : Z) :
  1 <= m -> m < m' <= 12 ->
  days_before_month y m + days_in_month y m <= days_before_month y m'.
Proof.
  unfold days_before_month, days_in_month. intros Hm Hm'.
  destruct (is_leap y); month_cases m; month_cases m'; try lia;
    vm_compute; discriminate.
Qed.

Lemma days_before_month_year (y m : Z) :
  1 <= m <= 12 ->
  0 <= days_before_month y m
  /\ days_before_month y m + days_in_month y m
     <= 365 + (if is_leap y then 1 else 0).
Proof.
  unfold days_before_month, days_in_month. intros Hm.
  destruct (is_leap y); month_cases m; vm_compute; split; discriminate.
Qed.

(** Later dates have larger ordinals. *)
Lemma ymd2ord_lt (y1 m1 d1 y2 m2 d2 : Z) :
  1 <= m1 <= 12 -> 1 <= d1 <= days_in_month y1 m1 ->
  1 <= m2 <= 12 -> 1 <= d2 <= days_in_month y2 m2 ->
  date_lt y1 m1 d1 y2 m2 d2 -> ymd2ord y1 m1 d1 < ymd2ord y2 m2 d2.
Proof.
  unfold ymd2ord. intros Hm1 Hd1 Hm2 Hd2 [Hy | (<- & [Hm | (<- & Hd)])].
  - pose proof (days_before_month_year y1 m1 Hm1) as (_ & H1).
    pose proof (days_before_month_year y2 m2 Hm2) as (H2 & _).
    pose proof (days_before_year_succ y1) as Hs.
    pose proof (days_before_year_mono (y1 + 1) y2 ltac:(lia)). lia.
  - pose proof (days_before_month_next y1 m1 m2 ltac:(lia) ltac:(lia)). lia.
  - lia.
Qed.

(** The ordinal tells the date. *)
Lemma ymd2ord_compare (y1 m1 d1 y2 m2 d2 : Z) :
  1 <= m1 <= 12 -> 1 <= d1 <= days_in_month y1 m1 ->
  1 <= m2 <= 12 -> 1 <= d2 <= days_in_month y2 m2 ->
  (ymd2ord y1 m1 d1 < ymd2ord y2 m2 d2 -> date_lt y1 m1 d1 y2 m2 d2)
  /\ (ymd2ord y1 m1 d1 = ymd2ord y2 m2 d2 -> y1 = y2 /\ m1 = m2 /\ d1 = d2).
Proof.
  intros Hm1 Hd1 Hm2 Hd2.
  assert (Htri : date_lt y1 m1 d1 y2 m2 d2 \/ (y1 = y2 /\ m1 = m2 /\ d1 = d2)
                 \/ date_lt y2 m2 d2 y1 m1 d1) by (unfold date_lt; lia).
  destruct Htri as [Hlt | [Heq | Hgt]].
  - pose proof (ymd2ord_lt _ _ _ _ _ _ Hm1 Hd1 Hm2 Hd2 Hlt). split; [auto | lia].
  - split; [|auto]. destruct Heq as (-> & -> & ->). lia.
  - pose proof (ymd2ord_lt _ _ _ _ _ _ Hm2 Hd2 Hm1 Hd1 Hgt). split; lia.
Qed.

(** ** Time stamps in order *)

Lemma fromtimestamp_utc_date (t : Z) (dt : datetime) :
  fromtimestamp_utc t = Return dt -> day dt <= days_in_month (year dt) (month dt).
Proof.
  unfold fromtimestamp_utc.
  pose proof (civil_from_days_day (t / 86400000000)) as Hday.
  destruct (civil_from_days (t / 86400000000)) as [[y m] d].
  destruct ((MINYEAR <=? y) && (y <=? MAXYEAR)); [|discriminate].
  intros H. inversion H; subst. exact Hday.
Qed.

(** Of two time stamps the earlier one has the earlier date, or the same
    date and the earlier second of the day, or the same second and the
    smaller microsecond. *)
Lemma fromtimestamp_utc_lt (t1 t2 : Z) (dt1 dt2 : datetime) :
  fromtimestamp_utc t1 = Return dt1 -> fromtimestamp_utc t2 = Return dt2 ->
  t1 < t2 ->
  date_lt (year dt1) (month dt1) (day dt1) (year dt2) (month dt2) (day dt2)
  \/ (year dt1 = year dt2 /\ month dt1 = month dt2 /\ day dt1 = day dt2
      /\ (seconds_of_day dt1 < seconds_of_day dt2
          \/ (seconds_of_day dt1 = seconds_of_day dt2
              /\ microsecond dt1 < microsecond dt2))).
Proof.
  intros H1 H2 Hlt.
  pose proof (fromtimestamp_utc_date _ _ H1) as Hd1.
  pose proof (fromtimestamp_utc_date _ _ H2) as Hd2.
  pose proof (fromtimestamp_utc_fields _ _ H1)
    as ((_ & Hm1 & Hday1) & (Hh1 & Hmi1 & Hs1 & Hu1) & Ho1 & Ht1).
  pose proof (fromtimestamp_utc_fields _ _ H2)
    as ((_ & Hm2 & Hday2) & (Hh2 & Hmi2 & Hs2 & Hu2) & Ho2 & Ht2).
  destruct (ymd2ord_compare (year dt1) (month dt1) (day dt1)
              (year dt2) (month dt2) (day dt2)) as (Hord_lt & Hord_eq);
    try lia.
  unfold timestamp_us in Ht1, Ht2. rewrite Ho1 in Ht1. rewrite Ho2 in Ht2.
  unfold seconds_of_day.
  set (o1 := ymd2ord (year dt1) (month dt1) (day dt1)) in *.
  set (o2 := ymd2ord (year dt2) (month dt2) (day dt2)) in *.
  assert (Ho : o1 < o2 \/ o1 = o2 \/ o2 < o1) by lia.
  destruct Ho as [Ho | [Ho | Ho]].
  - left. auto.
  - right. destruct (Hord_eq Ho) as (-> & -> & ->). repeat split. lia.
  - exfalso. lia.
Qed.

(** ** Strings of digits *)

Lemma compare_app (a a' b b' : string) :
  String.length a = String.length a' ->
  String.compare (a ++ b) (a' ++ b')
  = match String.compare a a' with
    | Eq => String.compare b b'
    | c => c
    end.
Proof.
  revert a'. induction a as [|c a IH]; intros [|c' a']; simpl;
    try discriminate; trivial.
  intros H. destruct (Ascii.compare c c'); trivial. apply IH. congruence.
Qed.

Lemma compare_digit (n n' : Z) :
  String.compare (digit n) (digit n') = (n mod 10 ?= n' mod 10).
Proof.
  unfold digit.
  assert (H : 0 <= n mod 10 < 10) by (apply Z.mod_pos_bound; lia).
  assert (H' : 0 <= n' mod 10 < 10) by (apply Z.mod_pos_bound; lia).
  generalize dependent (n mod 10). generalize dependent (n' mod 10).
  intros k' Hk' k Hk.
  assert (Hc : k = 0 \/ k = 1 \/ k = 2 \/ k = 3 \/ k = 4 \/ k = 5 \/ k = 6
               \/ k = 7 \/ k = 8 \/ k = 9) by lia.
  assert (Hc' : k' = 0 \/ k' = 1 \/ k' = 2 \/ k' = 3 \/ k' = 4 \/ k' = 5
                \/ k' = 6 \/ k' = 7 \/ k' = 8 \/ k' = 9) by lia.
  destruct Hc as [?|[?|[?|[?|[?|[?|[?|[?|[?|?]]]]]]]]]; subst k;
    destruct Hc' as [?|[?|[?|[?|[?|[?|[?|[?|[?|?]]]]]]]]]; subst k';
    reflexivity.
Qed.

(** Numbers padded to the same width compare as strings the way they
    compare as numbers. *)
Lemma compare_zfill (w : nat) (n n' : Z) :
  0 <= n < 10 ^ Z.of_nat w -> 0 <= n' < 10 ^ Z.of_nat w ->
  String.compare (zfill w n) (zfill w n') = (n ?= n').
Proof.
  revert n n'. induction w as [|w IH]; intros n n' Hn Hn'.
  - simpl in *. assert (n = 0) by lia. assert (n' = 0) by lia. now subst.
  - rewrite Nat2Z.inj_succ, Z.pow_succ_r in Hn, Hn' by lia.
    cbn [zfill]. rewrite compare_app by now rewrite !length_zfill.
    rewrite IH, compare_digit by (split; Z.div_mod_to_equations; lia).
    destruct (Z.compare_spec (n / 10) (n' / 10)) as [He | Hl | Hg];
      symmetry.
    + destruct (Z.compare_spec (n mod 10) (n' mod 10));
        [apply Z.compare_eq_iff | apply Z.compare_lt_iff
         | apply Z.compare_gt_iff]; Z.div_mod_to_equations; lia.
    + apply Z.compare_lt_iff. Z.div_mod_to_equations; lia.
    + apply Z.compare_gt_iff. Z.div_mod_to_equations; lia.
Qed.

Lemma compare_field (w : nat) (n n' : Z) (r r' : string) :
  0 <= n < 10 ^ Z.of_nat w -> 0 <= n' < 10 ^ Z.of_nat w ->
  String.compare (zfill w n ++ r) (zfill w n' ++ r')
  = match n ?= n' with
    | Eq => String.compare r r'
    | c => c
    end.
Proof.
  intros Hn Hn'. rewrite compare_app by now rewrite !length_zfill.
  now rewrite compare_zfill.
Qed.

Lemma ascii_compare_refl (c : ascii) : Ascii.compare c c = Eq.
Proof. unfold Ascii.compare. apply N.compare_refl. Qed.

Lemma compare_field_sep (w : nat) (n n' : Z) (c : ascii) (r r' : string) :
  0 <= n < 10 ^ Z.of_nat w -> 0 <= n' < 10 ^ Z.of_nat w ->
  String.compare (zfill w n ++ String c r) (zfill w n' ++ String c r')
  = match n ?= n' with
    | Eq => String.compare r r'
    | x => x
    end.
Proof.
  intros Hn Hn'. rewrite compare_field by assumption.
  simpl. now rewrite ascii_compare_refl.
Qed.

Lemma compare_cons_eq (c : ascii) (r r' : string) :
  String.compare (String c r) (String c r') = String.compare r r'.
Proof. simpl. now rewrite ascii_compare_refl. Qed.

Lemma compare_cons_lt (c c' : ascii) (r r' : string) :
  Ascii.compare c c' = Lt -> String.compare (String c r) (String c' r') = Lt.
Proof. intros H. simpl. now rewrite H. Qed.

Lemma pow10_2 : 10 ^ Z.of_nat 2 = 100.
Proof. reflexivity. Qed.

Lemma pow10_4 : 10 ^ Z.of_nat 4 = 10000.
Proof. reflexivity. Qed.

Lemma pow10_6 : 10 ^ Z.of_nat 6 = 1000000.
Proof. reflexivity. Qed.

(** The ISO texts of two UTC [datetime]s compare as strings the way their
    fields compare, first field first. *)
Lemma isoformat_lt (dt1 dt2 : datetime) :
  0 <= year dt1 <= 9999 -> 0 <= year dt2 <= 9999 ->
  0 <= month dt1 < 100 -> 0 <= month dt2 < 100 ->
  0 <= day dt1 < 100 -> 0 <= day dt2 < 100 ->
  0 <= hour dt1 < 100 -> 0 <= hour dt2 < 100 ->
  0 <= minute dt1 < 100 -> 0 <= minute dt2 < 100 ->
  0 <= second dt1 < 100 -> 0 <= second dt2 < 100 ->
  0 <= microsecond dt1 < 1000000 -> 0 <= microsecond dt2 < 1000000 ->
  utcoffset dt1 = 0 -> utcoffset dt2 = 0 ->
  year dt1 < year dt2
  \/ (year dt1 = year dt2
      /\ (month dt1 < month dt2
          \/ (month dt1 = month dt2
              /\ (day dt1 < day dt2
                  \/ (day dt1 = day dt2
                      /\ (hour dt1 < hour dt2
                          \/ (hour dt1 = hour dt2
                              /\ (minute dt1 < minute dt2
                                  \/ (minute dt1 = minute dt2
                                      /\ (second dt1 < second dt2
                                          \/ (second dt1 = second dt2
                                              /\ microsecond dt1
                                                 < microsecond dt2))))))))))) ->
  String.compare (isoformat dt1) (isoformat dt2) = Lt.
Proof.
  intros Hy1 Hy2 Hm1 Hm2 Hd1 Hd2 Hh1 Hh2 Hmi1 Hmi2 Hs1 Hs2 Hu1 Hu2 Ho1 Ho2 Hlex.
  unfold isoformat. rewrite Ho1, Ho2. change (format_offset 0) with "+00:00".
  cbn [append].
  rewrite compare_field_sep by (rewrite ?pow10_2, ?pow10_4, ?pow10_6; lia).
  destruct (Z.compare_spec (year dt1) (year dt2)); [|reflexivity|exfalso; lia].
  rewrite compare_field_sep by (rewrite ?pow10_2, ?pow10_4, ?pow10_6; lia).
  destruct (Z.compare_spec (month dt1) (month dt2));
    [|reflexivity|exfalso; lia].
  rewrite compare_field_sep by (rewrite ?pow10_2, ?pow10_4, ?pow10_6; lia).
  destruct (Z.compare_spec (day dt1) (day dt2)); [|reflexivity|exfalso; lia].
  rewrite compare_field_sep by (rewrite ?pow10_2, ?pow10_4, ?pow10_6; lia).
  destruct (Z.compare_spec (hour dt1) (hour dt2)); [|reflexivity|exfalso; lia].
  rewrite compare_field_sep by (rewrite ?pow10_2, ?pow10_4, ?pow10_6; lia).
  destruct (Z.compare_spec (minute dt1) (minute dt2));
    [|reflexivity|exfalso; lia].
  rewrite compare_field by (rewrite ?pow10_2, ?pow10_4, ?pow10_6; lia).
  destruct (Z.compare_spec (second dt1) (second dt2));
    [|reflexivity|exfalso; lia].
  destruct (Z.eqb_spec (microsecond dt1) 0) as [Hz1 | Hz1];
    destruct (Z.eqb_spec (microsecond dt2) 0) as [Hz2 | Hz2];
    try (exfalso; lia).
  - cbn [append]. now apply compare_cons_lt.
  - cbn [append]. rewrite compare_cons_eq.
    rewrite compare_field by (rewrite ?pow10_2, ?pow10_4, ?pow10_6; lia).
    destruct (Z.compare_spec (microsecond dt1) (microsecond dt2));
      [exfalso; lia | reflexivity | exfalso; lia].
Qed.

Lemma fromtimestamp_utc_text_lt (t1 t2 : Z) (dt1 dt2 : datetime) :
  fromtimestamp_utc t1 = Return dt1 -> fromtimestamp_utc t2 = Return dt2 ->
  t1 < t2 -> String.compare (isoformat dt1) (isoformat dt2) = Lt.
Proof.
  intros H1 H2 Hlt.
  pose proof (fromtimestamp_utc_lt _ _ _ _ H1 H2 Hlt) as Hlex.
  pose proof (fromtimestamp_utc_fields _ _ H1)
    as ((Hy1 & Hm1 & Hd1) & (Hh1 & Hmi1 & Hs1 & Hu1) & Ho1 & _).
  pose proof (fromtimestamp_utc_fields _ _ H2)
    as ((Hy2 & Hm2 & Hd2) & (Hh2 & Hmi2 & Hs2 & Hu2) & Ho2 & _).
  unfold MINYEAR, MAXYEAR in *. unfold date_lt, seconds_of_day in Hlex.
  apply isoformat_lt; try lia.
Qed.

(** X7.  The texts of two time stamps are ordered as strings the way the time
    stamps are ordered in time, and equal when the time stamps are: under
    the order of strings, descending is newest first. *)
Theorem timestamp_text_order_is_time_order (t1 t2 : Z) (dt1 dt2 : datetime) :
  fromtimestamp_utc t1 = Return dt1 -> fromtimestamp_utc t2 = Return dt2 ->
  (t1 < t2 <-> String.ltb (isoformat dt1) (isoformat dt2) = true)
  /\ (t1 = t2 <-> isoformat dt1 = isoformat dt2).
Proof.
  intros H1 H2.
  assert (Hcases : t1 < t2 \/ t1 = t2 \/ t2 < t1) by lia.
  unfold String.ltb.
  destruct Hcases as [Hlt | [Heq | Hgt]].
  - pose proof (fromtimestamp_utc_text_lt _ _ _ _ H1 H2 Hlt) as Hc.
    rewrite Hc. split; split; trivial; try lia;
      intros He; rewrite He, compare_refl in Hc; discriminate.
  - subst t2. rewrite H1 in H2. inversion H2; subst dt2.
    rewrite compare_refl. split; split; trivial; try lia; discriminate.
  - pose proof (fromtimestamp_utc_text_lt _ _ _ _ H2 H1 Hgt) as Hc.
    rewrite String.compare_antisym, Hc. simpl.
    split; split; try lia; try discriminate;
      intros He; rewrite He, compare_refl in Hc; discriminate.
Qed.

Lemma timestamp_text_order_is_time_order_witness :
  exists dt1 dt2,
    fromtimestamp_utc 1704067200000000 = Return dt1
    /\ fromtimestamp_utc 1704067200000001 = Return dt2
    /\ isoformat dt1 = "2024-01-01T00:00:00+00:00"
    /\ isoformat dt2 = "2024-01-01T00:00:00.000001+00:00"
    /\ String.ltb (isoformat dt1) (isoformat dt2) = true.
Proof.
  eexists. eexists. split; [reflexivity|]. split; [reflexivity|].
  split; [reflexivity|]. split; [reflexivity|].
  apply (proj1 (timestamp_text_order_is_time_order
                  1704067200000000 1704067200000001 _ _ eq_refl eq_refl)).
  lia.
Defined.

(** ** Newest first *)

Lemma StronglySorted_after {A : Type} (R : A -> A -> Prop) (p r : list A)
  (a : A) :
  StronglySorted R (p ++ a :: r) -> Forall (R a) r.
Proof.
  induction p as [|x p IH]; simpl; intros H; inversion H; subst; auto.
Qed.

(** In a descending list an element with a larger key stands before one
    with a smaller key. *)
Lemma desc_before {A : Type} (skey : A -> string) (l : list A) (a b : A) :
  StronglySorted (desc skey) l -> In a l -> In b l ->
  String.ltb (skey a) (skey b) = true ->
  exists l1 l2 l3, l = (l1 ++ b :: l2 ++ a :: l3)%list.
Proof.
  intros Hs Ha Hb Hlt.
  apply in_split in Hb as (p & q & ->).
  apply in_app_or in Ha as [Ha | [-> | Ha]].
  - exfalso. apply in_split in Ha as (p1 & p2 & ->).
    rewrite <- app_assoc in Hs. simpl in Hs.
    apply StronglySorted_after in Hs. rewrite Forall_forall in Hs.
    assert (Hba : desc skey a b) by (apply Hs, in_or_app; right; now left).
    unfold desc in Hba. apply ltb_false_leb in Hba. congruence.
  - rewrite ltb_irrefl in Hlt. discriminate.
  - apply in_split in Ha as (q1 & q2 & ->). now exists p, q1, q2.
Qed.

(** X8.  When [_load_images] returns, of two listed entries whose
    modification times, as [fromtimestamp] takes them (rounded to whole
    microseconds), differ, the one with the later time comes first in the
    result, whatever the order in which the directory yields them; and two
    listed entries whose times are equal to the microsecond come in the
    order in which the directory yields them. *)
Theorem load_images_newest_first (files : list dir_entry)
  (out : list image_item) :
  _load_images (Some files) = Return out ->
  (forall older newer st1 st2,
     In older files -> qualifies older = true -> stat older = Return st1 ->
     In newer files -> qualifies newer = true -> stat newer = Return st2 ->
     st_mtime st1 < st_mtime st2 ->
     exists item1 item2 l1 l2 l3,
       make_item older = Return item1
       /\ make_item newer = Return item2
       /\ out = (l1 ++ item2 :: l2 ++ item1 :: l3)%list)
  /\ (forall before first between second after st1 st2,
       files = (before ++ first :: between ++ second :: after)%list ->
       qualifies first = true -> stat first = Return st1 ->
       qualifies second = true -> stat second = Return st2 ->
       st_mtime st1 = st_mtime st2 ->
       exists item1 item2 l1 l2 l3,
         make_item first = Return item1
         /\ make_item second = Return item2
         /\ out = (l1 ++ item1 :: l2 ++ item2 :: l3)%list).
Proof.
  intros Hout. split.
  - intros older newer st1 st2 Hin1 Hq1 Hst1 Hin2 Hq2 Hst2 Hlt.
    pose proof (load_images_items _ _ Hout) as (Hfw & _ & _).
    pose proof (load_images_inv _ _ Hout) as (_ & _ & _ & _ & Hsorted & _).
    destruct (Hfw older Hin1 Hq1) as (item1 & Hi1 & Hm1).
    destruct (Hfw newer Hin2 Hq2) as (item2 & Hi2 & Hm2).
    exists item1, item2.
    destruct (desc_before timestamp out item1 item2 Hsorted Hi1 Hi2)
      as (l1 & l2 & l3 & Heq).
    + pose proof (make_item_inv _ _ Hm1) as (st1' & dt1 & Hs1 & Hdt1 & ->).
      pose proof (make_item_inv _ _ Hm2) as (st2' & dt2 & Hs2 & Hdt2 & ->).
      rewrite Hst1 in Hs1. rewrite Hst2 in Hs2.
      inversion Hs1; inversion Hs2; subst st1' st2'. simpl.
      unfold String.ltb.
      now rewrite (fromtimestamp_utc_text_lt _ _ _ _ Hdt1 Hdt2 Hlt).
    + exists l1, l2, l3. auto.
  - intros before first between second after st1 st2 Hfiles Hq1 Hst1 Hq2 Hst2
      Heq.
    pose proof (load_images_inv _ _ Hout)
      as (items & _ & Hall & _ & _ & Hstable).
    rewrite Hfiles in Hall.
    rewrite filter_app in Hall. simpl in Hall. rewrite Hq1 in Hall.
    rewrite filter_app in Hall. simpl in Hall. rewrite Hq2 in Hall.
    apply Forall2_app_inv_l in Hall as (ia & r1 & _ & Hr1 & ->).
    inversion Hr1 as [|? item1 ? r2 Hm1 Hr2]; subst.
    apply Forall2_app_inv_l in Hr2 as (ib & r3 & _ & Hr3 & ->).
    inversion Hr3 as [|? item2 ? ic Hm2 _]; subst.
    exists item1, item2.
    assert (Hk : timestamp item2 = timestamp item1).
    { pose proof (make_item_inv _ _ Hm1) as (st1' & dt1 & Hs1 & Hdt1 & ->).
      pose proof (make_item_inv _ _ Hm2) as (st2' & dt2 & Hs2 & Hdt2 & ->).
      rewrite Hst1 in Hs1. rewrite Hst2 in Hs2.
      inversion Hs1; inversion Hs2; subst st1' st2'. simpl.
      rewrite Heq in Hdt1. rewrite Hdt1 in Hdt2. now inversion Hdt2. }
    specialize (Hstable (timestamp item1)).
    rewrite filter_app in Hstable. simpl in Hstable.
    rewrite filter_app in Hstable. simpl in Hstable.
    unfold has_key in Hstable at 3 5.
    rewrite Hk, String.eqb_refl in Hstable.
    apply filter_split in Hstable as (l1 & rest & -> & _ & Hrest).
    apply filter_split in Hrest as (l2 & l3 & -> & _ & _).
    exists l1, l2, l3. auto.
Qed.

Lemma load_images_newest_first_witness :
  _load_images (Some sample_directory) = Return sample_images
  /\ exists item1 item2 l1 l2 l3,
       make_item (entry "cam1.jpg" false 1704067200000000) = Return item1
       /\ make_item (entry "cam2.PNG" false 1704153600250000) = Return item2
       /\ sample_images = (l1 ++ item2 :: l2 ++ item1 :: l3)%list.
Proof.
  split; [exact sample_directory_images|].
  apply (proj1 (load_images_newest_first sample_directory sample_images
                  sample_directory_images)
           (entry "cam1.jpg" false 1704067200000000)
           (entry "cam2.PNG" false 1704153600250000)
           {| st_isdir := false; st_mtime := 1704067200000000 |}
           {| st_isdir := false; st_mtime := 1704153600250000 |});
    try reflexivity; simpl; try tauto; lia.
Defined.

(** ** The suffix test, by the shape of the name *)

Lemma lower_char_dot (a : ascii) :
  Ascii.eqb (lower_char a) "."%char = Ascii.eqb a "."%char.
Proof.
  destruct a as [b0 b1 b2 b3 b4 b5 b6 b7].
  destruct b0, b1, b2, b3, b4, b5, b6, b7; reflexivity.
Qed.

Lemma rfind_lower (s : string) : rfind "."%char (lower s) = rfind "."%char s.
Proof.
  induction s as [|a s IH]; simpl; [reflexivity|].
  now rewrite IH, lower_char_dot.
Qed.

Lemma length_lower (s : string) : String.length (lower s) = String.length s.
Proof. induction s as [|a s IH]; simpl; congruence. Qed.

Lemma substring_lower (n m : nat) (s : string) :
  lower (substring n m s) = substring n m (lower s).
Proof.
  revert n m. induction s as [|a s IH]; intros [|n] [|m]; simpl;
    try reflexivity; try apply IH.
  now rewrite IH.
Qed.

(** Lowering the name lowers its suffix. *)
Lemma suffix_lower (name : string) : suffix (lower name) = lower (suffix name).
Proof.
  unfold suffix, slice_from, len.
  rewrite rfind_lower, length_lower.
  destruct ((0 <? rfind "."%char name)
            && (rfind "."%char name <? Z.of_nat (String.length name) - 1));
    [|reflexivity].
  now rewrite substring_lower.
Qed.

Lemma lower_char_idem (a : ascii) : lower_char (lower_char a) = lower_char a.
Proof.
  destruct a as [b0 b1 b2 b3 b4 b5 b6 b7].
  destruct b0, b1, b2, b3, b4, b5, b6, b7; reflexivity.
Qed.

Lemma lower_idem (s : string) : lower (lower s) = lower s.
Proof.
  induction s as [|a s IH]; simpl; [reflexivity|].
  now rewrite IH, lower_char_idem.
Qed.

(** X9.  The suffix test does not see the case of letters, anywhere in the
    name: two entries whose names differ in letter case only are both
    listed or both left out, and an entry passes exactly when its lowered
    name ends in one of the five suffixes as they are written. *)
Theorem qualifies_case_insensitive (file file' : dir_entry) :
  (lower (name file) = lower (name file') -> qualifies file = qualifies file')
  /\ qualifies file = mem (suffix (lower (name file))) IMAGE_SUFFIXES.
Proof.
  assert (H : forall f, qualifies f = mem (suffix (lower (name f))) IMAGE_SUFFIXES)
    by (intros f; unfold qualifies; now rewrite suffix_lower).
  split; [|apply H].
  intros Heq. now rewrite (H file), (H file'), Heq.
Qed.

Lemma qualifies_case_insensitive_witness :
  lower (name (entry "Cam2.PNG" false 0)) = lower (name (dangling "cam2.png"))
  /\ qualifies (entry "Cam2.PNG" false 0) = qualifies (dangling "cam2.png").
Proof.
  split; [reflexivity|].
  exact (proj1 (qualifies_case_insensitive (entry "Cam2.PNG" false 0)
                  (dangling "cam2.png")) eq_refl).
Defined.

Lemma rfind_range (c : ascii) (s : string) : -1 <= rfind c s < len s.
Proof.
  unfold len. induction s as [|a s IH]; simpl String.length; simpl rfind;
    [lia|].
  destruct (Z.leb_spec 0 (rfind c s)); [lia|].
  destruct (Ascii.eqb a c); lia.
Qed.

Lemma rfind_app (c : ascii) (s t : string) :
  rfind c (s ++ t)
  = if 0 <=? rfind c t then len s + rfind c t else rfind c s.
Proof.
  unfold len. induction s as [|a s IH].
  - simpl. pose proof (rfind_range c t).
    destruct (Z.leb_spec 0 (rfind c t)); lia.
  - cbn [append rfind String.length]. rewrite IH.
    pose proof (rfind_range c s). unfold len in *.
    destruct (Z.leb_spec 0 (rfind c t)).
    + destruct (Z.leb_spec 0 (Z.of_nat (String.length s) + rfind c t)); lia.
    + reflexivity.
Qed.

Lemma substring_all (s : string) : substring 0 (String.length s) s = s.
Proof. induction s as [|a s IH]; simpl; congruence. Qed.

Lemma substring_app_r (s t : string) :
  substring (String.length s) (String.length t) (s ++ t) = t.
Proof.
  induction s as [|a s IH]; simpl; [apply substring_all | exact IH].
Qed.

Lemma substring_split (n : nat) (s : string) :
  (n <= String.length s)%nat ->
  substring 0 n s ++ substring n (String.length s - n) s = s.
Proof.
  revert n. induction s as [|a s IH]; intros [|n]; simpl; intros Hn;
    try lia; try reflexivity.
  - f_equal. apply substring_all.
  - f_equal. apply IH. lia.
Qed.

Lemma mem_image_suffix (ext : string) :
  mem (lower ext) IMAGE_SUFFIXES = true ->
  rfind "."%char ext = 0 /\ (4 <= String.length ext)%nat.
Proof.
  intros H. rewrite <- rfind_lower, <- (length_lower ext).
  unfold mem, IMAGE_SUFFIXES in H. simpl in H.
  repeat match type of H with
         | (?a || ?b)%bool = true =>
             apply orb_true_iff in H; destruct H as [H | H]
         end;
    try discriminate; apply String.eqb_eq in H; rewrite H; simpl; lia.
Qed.

(** X10.  An entry passes the suffix test exactly when its name is a non-empty
    stem followed by [.png], [.jpg], [.jpeg], [.gif] or [.bmp] in any
    letter case; a name that is nothing but such a suffix does not pass. *)
Theorem qualifies_iff_stem_and_suffix (file : dir_entry) :
  qualifies file = true
  <-> exists stem ext,
        name file = stem ++ ext /\ stem <> ""
        /\ mem (lower ext) IMAGE_SUFFIXES = true.
Proof.
  unfold qualifies, suffix. split.
  - intros H. pose proof (rfind_range "."%char (name file)) as Hr.
    destruct ((0 <? rfind "."%char (name file))
              && (rfind "."%char (name file) <? len (name file) - 1)) eqn:Hc;
      [|discriminate].
    apply andb_prop in Hc as (Hlo & _). apply Z.ltb_lt in Hlo.
    set (i := Z.to_nat (rfind "."%char (name file))) in *.
    unfold len in Hr.
    assert (Hi : (0 < i <= String.length (name file))%nat) by lia.
    exists (substring 0 i (name file)), (slice_from (rfind "."%char (name file))
                                           (name file)).
    unfold slice_from in *. fold i in H |- *. repeat split; trivial.
    + symmetry. apply substring_split. lia.
    + destruct i as [|i]; [lia|].
      destruct (name file); simpl in *; [lia | discriminate].
  - intros (stem & ext & Hname & Hstem & Hmem).
    destruct (mem_image_suffix ext Hmem) as (Hdot & Hlen).
    rewrite Hname, rfind_app, Hdot. change (0 <=? 0) with true. cbv iota.
    unfold len, slice_from. rewrite length_append.
    assert (Hs : (0 < String.length stem)%nat)
      by (destruct stem; simpl; [congruence | lia]).
    replace ((0 <? Z.of_nat (String.length stem) + 0)
             && (Z.of_nat (String.length stem) + 0
                 <? Z.of_nat (String.length stem + String.length ext) - 1))
      with true
      by (symmetry; apply andb_true_intro; rewrite !Z.ltb_lt; lia).
    replace (Z.to_nat (Z.of_nat (String.length stem) + 0))
      with (String.length stem) by lia.
    replace (String.length stem + String.length ext - String.length stem)%nat
      with (String.length ext) by lia.
    now rewrite substring_app_r.
Qed.

Lemma qualifies_iff_stem_and_suffix_witness :
  qualifies (entry "cam2.PNG" false 1704153600250000) = true
  /\ exists stem ext,
       "cam2.PNG" = stem ++ ext /\ stem <> ""
       /\ mem (lower ext) IMAGE_SUFFIXES = true.
Proof.
  split; [reflexivity|].
  exact (proj1 (qualifies_iff_stem_and_suffix
                  (entry "cam2.PNG" false 1704153600250000)) eq_refl).
Defined.

(** ** Integer timestamps *)

Section SortFactsZ.
Context {A : Type}.
Variable zkey : A -> Z.
Variable key : A -> result json.

#[local] Abbreviation asc_z := (fun a b : A => zkey a <= zkey b).
#[local] Abbreviation tag_z := (fun x : A => (JInt (zkey x), x)).

Lemma ins_z_perm (x : A) (l : list A) : Permutation (x :: l) (ins_z zkey x l).
Proof.
  induction l as [|y l IH]; simpl; [reflexivity|].
  destruct (zkey y <? zkey x); [|reflexivity].
  rewrite perm_swap. now apply perm_skip.
Qed.

Lemma isort_z_perm (l : list A) : Permutation l (isort_z zkey l).
Proof.
  induction l as [|x l IH]; simpl; [reflexivity|].
  rewrite <- ins_z_perm. now apply perm_skip.
Qed.

Lemma ins_z_sorted (x : A) (l : list A) :
  StronglySorted asc_z l -> StronglySorted asc_z (ins_z zkey x l).
Proof.
  induction 1 as [|y l Hs IH Hy]; simpl.
  - repeat constructor.
  - destruct (Z.ltb_spec (zkey y) (zkey x)) as [Hlt | Hge].
    + constructor; [exact IH|].
      rewrite <- ins_z_perm. constructor; [lia | exact Hy].
    + constructor; [now constructor|].
      constructor; [exact Hge|].
      eapply Forall_impl; [|exact Hy]. intros z Hz. simpl in *. lia.
Qed.

Lemma isort_z_sorted (l : list A) : StronglySorted asc_z (isort_z zkey l).
Proof.
  induction l as [|x l IH]; simpl; [constructor | now apply ins_z_sorted].
Qed.

Lemma ins_z_filter (n : Z) (x : A) (l : list A) :
  filter (fun a => zkey a =? n) (ins_z zkey x l)
  = filter (fun a => zkey a =? n) (x :: l).
Proof.
  induction l as [|y l IH]; simpl; [reflexivity|].
  destruct (Z.ltb_spec (zkey y) (zkey x)) as [Hlt | Hge]; [|reflexivity].
  simpl in *. rewrite IH.
  destruct (Z.eqb_spec (zkey x) n); [|reflexivity].
  destruct (Z.eqb_spec (zkey y) n); [lia | reflexivity].
Qed.

Lemma isort_z_filter (n : Z) (l : list A) :
  filter (fun a => zkey a =? n) (isort_z zkey l)
  = filter (fun a => zkey a =? n) l.
Proof.
  induction l as [|x l IH]; simpl; [reflexivity|].
  rewrite ins_z_filter. simpl. now rewrite IH.
Qed.

Lemma insert_lt_tag_z (x : A) (l : list A) :
  insert_lt (tag_z x) (map tag_z l) = Return (map tag_z (ins_z zkey x l)).
Proof.
  induction l as [|y l IH]; simpl; [reflexivity|].
  destruct (zkey y <? zkey x); simpl; [|reflexivity].
  now rewrite IH.
Qed.

Lemma sort_lt_tag_z (l : list A) :
  sort_lt (map tag_z l) = Return (map tag_z (isort_z zkey l)).
Proof.
  induction l as [|x l IH]; simpl; [reflexivity|].
  rewrite IH. simpl. apply insert_lt_tag_z.
Qed.

Lemma with_keys_tag_z (l : list A) :
  (forall x, In x l -> key x = Return (JInt (zkey x))) ->
  with_keys key l = Return (map tag_z l).
Proof.
  induction l as [|x l IH]; simpl; intros H; [reflexivity|].
  rewrite (H x) by now left. simpl.
  rewrite IH by (intros; apply H; now right). reflexivity.
Qed.

(** On integer keys [list.sort(reverse=True)] returns the stable descending
    arrangement under the order of numbers. *)
Lemma list_sort_stable_desc_z (l : list A) :
  (forall x, In x l -> key x = Return (JInt (zkey x))) ->
  exists out, list_sort key true l = Return out /\ stable_desc_z zkey l out.
Proof.
  intros H. exists (rev (isort_z zkey (rev l))). split.
  - unfold list_sort. rewrite (with_keys_tag_z l H). simpl.
    rewrite <- map_rev, sort_lt_tag_z. simpl.
    now rewrite <- map_rev, map_map, map_id.
  - repeat split.
    + rewrite <- Permutation_rev, <- isort_z_perm. apply Permutation_rev.
    + apply (StronglySorted_rev asc_z). apply isort_z_sorted.
    + intros n. rewrite filter_rev, isort_z_filter, filter_rev.
      apply rev_involutive.
Qed.

End SortFactsZ.

Lemma timestamp_key_int_event (e : json) :
  is_int_event e = true -> timestamp_key e = Return (JInt (int_timestamp_of e)).
Proof.
  destruct e as [ | | | | | items]; simpl; try discriminate.
  destruct (lookup "timestamp" items) as [[ | | | | | ]|]; simpl;
    congruence.
Qed.

(** X11.  When every event of the log array is an object with an integer
    timestamp, [get_logs] returns them sorted by number, largest first, the
    events with the same number in the order of the array: 10 comes before
    9, which as text it would not. *)
Theorem get_logs_integer_timestamps (evs : list json) :
  forallb is_int_event evs = true ->
  exists out,
    get_logs (Some (Parsed (JArr evs)))
    = Return {| events := out; events_total := List.length evs |}
    /\ stable_desc_z int_timestamp_of evs out.
Proof.
  intros Hev. rewrite forallb_forall in Hev.
  destruct (list_sort_stable_desc_z int_timestamp_of timestamp_key evs)
    as (out & Hsort & Hstable).
  { intros e He. apply timestamp_key_int_event. now apply Hev. }
  exists out. split; [|exact Hstable].
  rewrite get_logs_parsed_array, Hsort. simpl.
  destruct Hstable as (Hperm & _). now rewrite (Permutation_length Hperm).
Qed.

Lemma get_logs_integer_timestamps_witness :
  forallb is_int_event epoch_events = true
  /\ get_logs (Some (Parsed (JArr epoch_events)))
     = Return {| events := epoch_events_sorted; events_total := 3 |}
  /\ exists out,
       get_logs (Some (Parsed (JArr epoch_events)))
       = Return {| events := out; events_total := 3 |}
       /\ stable_desc_z int_timestamp_of epoch_events out.
Proof.
  split; [reflexivity|]. split; [reflexivity|].
  exact (get_logs_integer_timestamps epoch_events eq_refl).
Defined.

(** ** When the listing goes through *)

Lemma fromtimestamp_utc_in_range (t : Z) (dt : datetime) :
  fromtimestamp_utc t = Return dt -> MIN_TIMESTAMP <= t <= MAX_TIMESTAMP.
Proof.
  intros H.
  pose proof (fromtimestamp_utc_date _ _ H) as Hdim.
  pose proof (fromtimestamp_utc_fields _ _ H)
    as ((Hy & Hm & Hd) & (Hh & Hmi & Hs & Hu) & Ho & Ht).
  unfold MINYEAR, MAXYEAR in Hy.
  assert (Hlo : ymd2ord 1 1 1 <= ymd2ord (year dt) (month dt) (day dt)).
  { assert (Hc : date_lt 1 1 1 (year dt) (month dt) (day dt)
                 \/ (year dt = 1 /\ month dt = 1 /\ day dt = 1))
      by (unfold date_lt; lia).
    destruct Hc as [Hc | (-> & -> & ->)]; [|lia].
    apply ymd2ord_lt in Hc; try lia. vm_compute. split; discriminate. }
  assert (Hhi : ymd2ord (year dt) (month dt) (day dt) <= ymd2ord 9999 12 31).
  { assert (Hday : day dt <= 31).
    { unfold days_in_month in Hdim.
      destruct ((month dt =? 2) && is_leap (year dt)); [lia|].
      revert Hdim. generalize (day dt). generalize dependent (month dt).
      intros m Hm d. month_cases m; simpl; lia. }
    assert (Hc : date_lt (year dt) (month dt) (day dt) 9999 12 31
                 \/ (year dt = 9999 /\ month dt = 12 /\ day dt = 31))
      by (unfold date_lt; lia).
    destruct Hc as [Hc | (-> & -> & ->)]; [|lia].
    apply ymd2ord_lt in Hc; try lia. vm_compute. split; discriminate. }
  change (ymd2ord 1 1 1) with 1 in Hlo.
  change (ymd2ord 9999 12 31) with 3652059 in Hhi.
  unfold timestamp_us in Ht. rewrite Ho in Ht.
  unfold MIN_TIMESTAMP, MAX_TIMESTAMP. lia.
Qed.

Lemma make_item_returns_readable (file : dir_entry) :
  returns (make_item file) -> readable file.
Proof.
  intros (item & H). apply make_item_inv in H as (st & dt & Hst & Hdt & _).
  exists st. split; [exact Hst|]. now apply (fromtimestamp_utc_in_range _ dt).
Qed.

(** X12.  On a directory that can be listed, [_load_images], and with it
    [get_images], returns exactly when every entry with an image suffix can
    be read: [stat()] succeeds on it and its modification time, as
    [fromtimestamp] takes it (the float rounded to whole microseconds),
    lies within the years 1 to 9999.  Entries without such a suffix play no
    part. *)
Theorem load_images_returns_iff_readable (files : list dir_entry) :
  (returns (_load_images (Some files))
   <-> forall file, In file files -> qualifies file = true -> readable file)
  /\ (returns (get_images (Some files))
      <-> returns (_load_images (Some files))).
Proof.
  split; split.
  - intros (out & Hout) file Hin Hq.
    destruct (proj1 (load_images_items _ _ Hout) file Hin Hq)
      as (item & _ & Hmake).
    apply make_item_returns_readable. now exists item.
  - apply load_images_returns.
  - unfold get_images. intros (b & Hb).
    destruct (_load_images (Some files)) as [out|e]; [now exists out|].
    discriminate.
  - unfold get_images. intros (out & Hout). rewrite Hout. simpl.
    eexists. reflexivity.
Qed.

Lemma load_images_returns_iff_readable_witness :
  (forall file, In file sample_directory -> qualifies file = true ->
                readable file)
  /\ returns (_load_images (Some sample_directory)).
Proof.
  split; [exact sample_directory_readable|].
  exact (proj2 (proj1 (load_images_returns_iff_readable sample_directory))
           sample_directory_readable).
Defined.

(** ** The outcomes of [get_logs], by the state of the log file *)

(** X13.  What [get_logs] does is decided by the state of the log file:
    without the file it returns the empty list; an exception that reading
    or parsing raises, other than [JSONDecodeError], leaves it as it is;
    [JSONDecodeError] becomes an [HTTPException] 500 whose detail carries
    the diagnostic; a parsed value that is not a list becomes an
    [HTTPException] 500 with the detail on the array; and on an array it
    either returns a rearrangement of the events or raises [TypeError] or
    [AttributeError], and nothing else. *)
Theorem get_logs_outcomes :
  get_logs None = Return {| events := []; events_total := 0 |}
  /\ (forall e, get_logs (Some (Unreadable e)) = Raise e)
  /\ (forall exc,
       get_logs (Some (ParseError exc))
       = Raise (HTTPException 500 (corrupt_detail exc)))
  /\ (forall raw,
       isinstance_list raw = false ->
       get_logs (Some (Parsed raw))
       = Raise (HTTPException 500 not_array_detail))
  /\ (forall evs,
       match get_logs (Some (Parsed (JArr evs))) with
       | Return b =>
           Permutation evs (events b) /\ events_total b = List.length evs
       | Raise e => e = TypeError \/ e = AttributeError
       end).
Proof.
  repeat split; try reflexivity.
  - intros raw Hraw. destruct raw; try reflexivity. discriminate Hraw.
  - intros evs. rewrite get_logs_parsed_array. unfold fmap.
    destruct (list_sort timestamp_key true evs) as [out|e] eqn:Hs; simpl.
    + pose proof (list_sort_perm _ _ _ _ Hs) as Hp.
      split; [exact Hp | now rewrite (Permutation_length Hp)].
    + apply (list_sort_raises timestamp_key
               (fun e => e = TypeError \/ e = AttributeError)) in Hs;
        [exact Hs | | now left].
      intros x e' He. right. now apply timestamp_key_raises in He.
Qed.

Lemma get_logs_outcomes_witness :
  isinstance_list (JInt 7) = false
  /\ get_logs (Some (Parsed (JInt 7)))
     = Raise (HTTPException 500 not_array_detail).
Proof.
  split; [reflexivity|].
  exact (proj1 (proj2 (proj2 (proj2 get_logs_outcomes))) (JInt 7) eq_refl).
Defined.

(** ** One record per name *)

Lemma append_inj_r (p a b : string) : p ++ a = p ++ b -> a = b.
Proof.
  induction p as [|c p IH]; simpl; intros H; [exact H|].
  inversion H. auto.
Qed.

Lemma NoDup_map_filter {T K : Type} (key : T -> K) (keep : T -> bool)
  (xs : list T) (Hnd : NoDup (map key xs)) :
  NoDup (map key (filter keep xs)).
Proof.
  revert Hnd. induction xs as [|x xs IH]; simpl; intros H; [constructor|].
  inversion H as [|? ? Hnotin Hnd]; subst.
  destruct (keep x); simpl; [|now apply IH].
  constructor; [|now apply IH].
  intros Hin. apply Hnotin. apply in_map_iff in Hin as (y & Hy & Hin).
  apply filter_In in Hin as (Hin & _). rewrite <- Hy. now apply in_map.
Qed.

(** X14.  The names of the entries of a directory are distinct; then so are the
    file names and the urls of the records [_load_images] returns: no
    picture is listed twice, and no two records point to the same url. *)
Theorem load_images_no_duplicates (files : list dir_entry)
  (out : list image_item) :
  NoDup (map name files) ->
  _load_images (Some files) = Return out ->
  NoDup (map filename out) /\ NoDup (map url out).
Proof.
  intros Hnd Hout.
  pose proof (load_images_inv _ _ Hout) as (items & _ & Hall & Hperm & _).
  assert (Hnames : map filename items = map name (filter qualifies files)).
  { clear - Hall. induction Hall as [|file item fs its Hm _ IH]; simpl;
      [reflexivity|].
    apply make_item_inv in Hm as (st & dt & _ & _ & ->). simpl. now rewrite IH. }
  assert (Hfn : NoDup (map filename out)).
  { apply (Permutation_NoDup (Permutation_map filename Hperm)).
    rewrite Hnames. now apply NoDup_map_filter. }
  split; [exact Hfn|].
  assert (Hurl : map url out
                 = map (fun n => "/static/images/" ++ n) (map filename out)).
  { rewrite map_map. apply map_ext_in. intros item Hin.
    apply (Permutation_in _ (Permutation_sym Hperm)) in Hin.
    destruct (Forall2_In_r _ _ _ Hall item Hin) as (file & _ & Hm).
    apply make_item_inv in Hm as (st & dt & _ & _ & ->). reflexivity. }
  rewrite Hurl. apply Finite.Injective_map_NoDup; [|exact Hfn].
  intros a b. apply append_inj_r.
Qed.

Lemma load_images_no_duplicates_witness :
  NoDup (map name sample_directory)
  /\ _load_images (Some sample_directory) = Return sample_images
  /\ NoDup (map filename sample_images) /\ NoDup (map url sample_images).
Proof.
  assert (Hnd : NoDup (map name sample_directory)).
  { simpl. repeat constructor; simpl; intuition discriminate. }
  split; [exact Hnd|]. split; [exact sample_directory_images|].
  exact (load_images_no_duplicates sample_directory sample_images Hnd
           sample_directory_images).
Defined.
